(** * Multi-agent contract analysis: workers, orchestration and text extraction

    A shallow embedding of the Python sources

    - [agents/contract_agent.py], [agents/legal_agent.py],
      [agents/negotiation_agent.py], [agents/manager_agent.py]: the four
      workers, each wrapping one awaited call [self.agent.arun(prompt)];
    - [telegram_bot.py] ([run_agents]) and [app.py]
      ([run_parallel_analysis], [run_manager_analysis]): the fan-out over
      [asyncio.gather] followed by the manager stage;
    - [utils/document_processor.py]: the text-extraction entry point.

    Python [str] values are sequences of Unicode code points, result
    dictionaries are finite maps from keys to Python values, an [async def]
    is a tree of suspensions at the external call, and the event loop is an
    explicit scheduler that is driven by the order in which the external
    calls complete. *)

From Stdlib Require Import Ascii.
From stdpp Require Import gmap strings list.

Open Scope string_scope.
Open Scope list_scope.
Open Scope nat_scope.

(** ** Python values *)

(** A Python [str] is a sequence of code points; slicing and [len] count
    code points, not bytes. *)
Abbreviation pystr := (list N).

(** An ASCII literal of the source, as a [str]. *)
Definition lit (s : string) : pystr :=
  (λ a, Ascii.N_of_ascii a) <$> String.list_ascii_of_string s.

(** The values stored in the result dictionaries: a [str] or [None]. *)
Inductive pyval : Type :=
| PNone
| PStr (s : pystr).

#[global] Instance pyval_eq_dec : EqDecision pyval.
Proof. solve_decision. Defined.

(** [str(v)], which is also what an f-string does with [{v}]. *)
Definition py_str (v : pyval) : pystr :=
  match v with
  | PNone => lit "None"
  | PStr s => s
  end.

(** Truth value of an optional string: [None] and [''] are false. *)
Definition truthy (o : option pystr) : bool :=
  match o with
  | Some (_ :: _) => true
  | _ => false
  end.

(** [s[:n]] *)
Definition slice_to (n : N) (s : pystr) : pystr := take (N.to_nat n) s.

(** An instance of (a subclass of) Python's [Exception], with the name of
    its class and the text [str(e)]. *)
Record Exception : Type := { exc_class : string; exc_str : pystr }.

#[global] Instance Exception_eq_dec : EqDecision Exception.
Proof. solve_decision. Defined.

(** How a call ends: it returns a value or raises. *)
Inductive outcome (A : Type) : Type :=
| Returns (a : A)
| Raises (e : Exception).
Arguments Returns {A} a.
Arguments Raises {A} e.

(** A result dictionary of a worker. *)
Abbreviation result := (gmap string pyval).

(** ** The external text-generation service *)

Record MistralChat : Type := { id : pystr; api_key : option pystr }.

Record Agent : Type := {
  name : pystr;
  model : MistralChat;
  instructions : pystr;
  markdown : bool
}.

(** What [agent.arun] hands back: the fields the workers read. *)
Record RunResponse : Type := { content : pyval; run_id : option pystr }.

(** The service as seen by one run: how [agent.arun(prompt)] ends. *)
Definition service : Type := Agent → pystr → outcome RunResponse.

(** [os.getenv] reads the process environment. *)
Definition getenv (environ : gmap string pystr) (key : string) : option pystr :=
  environ !! key.

(** ** Coroutines

    An [async def] of this program runs until [await self.agent.arun(prompt)],
    is suspended there, and continues with the way that call ended. *)
Inductive coro (R : Type) : Type :=
| Done (o : outcome R)
| Await (a : Agent) (prompt : pystr) (k : outcome RunResponse → coro R).
Arguments Done {R} o.
Arguments Await {R} a prompt k.

(** [str(response.run_id) if response.run_id else None] *)
Definition run_id_field (response : RunResponse) : pyval :=
  if truthy (run_id response)
  then match run_id response with Some s => PStr s | None => PNone end
  else PNone.

(** The code points of the warning sign that opens a failure notice:
    U+26A0 U+FE0F. *)
Definition warning_sign : pystr := [9888%N; 65039%N].

(** ** agents/contract_agent.py *)
Module ContractStructureAgent.

Definition INSTRUCTIONS : pystr := lit
"You are a Contract Structure Analysis Expert. Analyze contracts for structure and organization.

Provide a brief, readable analysis covering:
- **Sections Found**: List main sections you identified
- **Document Flow**: Is the contract logically organized?
- **Missing Sections**: Any standard sections that are missing?
- **Structure Score**: Rate 1-10 with brief explanation

Keep your response concise and easy to read. Use bullet points and short paragraphs.".

Record t : Type := { agent : Agent }.

Definition init (environ : gmap string pystr) : t :=
  {| agent := {| name := lit "Contract Structure Agent";
                 model := {| id := lit "mistral-large-latest";
                             api_key := getenv environ "MISTRAL_API_KEY" |};
                 instructions := INSTRUCTIONS;
                 markdown := true |} |}.

Definition prompt_head : pystr := lit
"Analyze this contract's structure briefly:

".

Definition prompt_tail : pystr := lit
"

Provide a short, readable summary of the document structure.".

Definition prompt (contract_text : pystr) : pystr :=
  prompt_head ++ slice_to 8000 contract_text ++ prompt_tail.

Definition analyze (self : t) (contract_text : pystr) : coro result :=
  Await (agent self) (prompt contract_text) (λ o,
    match o with
    | Returns response =>
        Done (Returns {[ "agent" := PStr (lit "Contract Structure Agent");
                         "analysis_type" := PStr (lit "structural");
                         "content" := content response;
                         "run_id" := run_id_field response ]})
    | Raises e =>
        Done (Returns {[ "agent" := PStr (lit "Contract Structure Agent");
                         "analysis_type" := PStr (lit "structural");
                         "content" := PStr (warning_sign ++ lit " Analysis failed: " ++ exc_str e);
                         "error" := PStr (exc_str e) ]})
    end).

End ContractStructureAgent.

(** ** agents/legal_agent.py *)
Module LegalFrameworkAgent.

Definition INSTRUCTIONS : pystr := lit
"You are a Legal Analysis Expert. Analyze contracts for legal risks and compliance.

Provide a brief, readable analysis covering:
- **Governing Law**: What jurisdiction governs this contract?
- **Key Risks**: Top 3-5 legal risks identified
- **Red Flags**: Any concerning clauses or terms?
- **Legal Score**: Rate 1-10 with brief explanation

Keep your response concise and easy to read. Use bullet points and short paragraphs.".

Record t : Type := { agent : Agent }.

Definition init (environ : gmap string pystr) : t :=
  {| agent := {| name := lit "Legal Framework Agent";
                 model := {| id := lit "mistral-large-latest";
                             api_key := getenv environ "MISTRAL_API_KEY" |};
                 instructions := INSTRUCTIONS;
                 markdown := true |} |}.

Definition prompt_head : pystr := lit
"Analyze this contract for legal risks briefly:

".

Definition prompt_tail : pystr := lit
"

Provide a short, readable summary of legal concerns.".

Definition prompt (contract_text : pystr) : pystr :=
  prompt_head ++ slice_to 8000 contract_text ++ prompt_tail.

Definition analyze (self : t) (contract_text : pystr) : coro result :=
  Await (agent self) (prompt contract_text) (λ o,
    match o with
    | Returns response =>
        Done (Returns {[ "agent" := PStr (lit "Legal Framework Agent");
                         "analysis_type" := PStr (lit "legal");
                         "content" := content response;
                         "run_id" := run_id_field response ]})
    | Raises e =>
        Done (Returns {[ "agent" := PStr (lit "Legal Framework Agent");
                         "analysis_type" := PStr (lit "legal");
                         "content" := PStr (warning_sign ++ lit " Analysis failed: " ++ exc_str e);
                         "error" := PStr (exc_str e) ]})
    end).

End LegalFrameworkAgent.

(** ** agents/negotiation_agent.py *)
Module NegotiationAgent.

Definition INSTRUCTIONS : pystr := lit
"You are a Contract Negotiation Expert. Analyze contracts for negotiation opportunities.

Provide a brief, readable analysis covering:
- **Favorable Terms**: What's good in this contract?
- **Unfavorable Terms**: What needs negotiation?
- **Quick Wins**: Easy changes likely to be accepted
- **Negotiation Score**: Rate 1-10 with brief explanation

Keep your response concise and easy to read. Use bullet points and short paragraphs.".

Record t : Type := { agent : Agent }.

Definition init (environ : gmap string pystr) : t :=
  {| agent := {| name := lit "Negotiation Agent";
                 model := {| id := lit "mistral-large-latest";
                             api_key := getenv environ "MISTRAL_API_KEY" |};
                 instructions := INSTRUCTIONS;
                 markdown := true |} |}.

Definition prompt_head : pystr := lit
"Analyze this contract for negotiation opportunities briefly:

".

Definition prompt_tail : pystr := lit
"

Provide a short, readable summary of negotiation points.".

Definition prompt (contract_text : pystr) : pystr :=
  prompt_head ++ slice_to 8000 contract_text ++ prompt_tail.

Definition analyze (self : t) (contract_text : pystr) : coro result :=
  Await (agent self) (prompt contract_text) (λ o,
    match o with
    | Returns response =>
        Done (Returns {[ "agent" := PStr (lit "Negotiation Agent");
                         "analysis_type" := PStr (lit "negotiation");
                         "content" := content response;
                         "run_id" := run_id_field response ]})
    | Raises e =>
        Done (Returns {[ "agent" := PStr (lit "Negotiation Agent");
                         "analysis_type" := PStr (lit "negotiation");
                         "content" := PStr (warning_sign ++ lit " Analysis failed: " ++ exc_str e);
                         "error" := PStr (exc_str e) ]})
    end).

End NegotiationAgent.

(** [d.get(key, default)] *)
Definition dict_get {V : Type} (d : gmap string V) (key : string) (dflt : V) : V :=
  default dflt (d !! key).

(** ** agents/manager_agent.py *)
Module ManagerAgent.

Definition INSTRUCTIONS : pystr := lit
"You are a Contract Analysis Manager. Consolidate findings from other agents into an executive summary.

Provide a brief, readable report covering:
- **Executive Summary**: 2-3 sentence overview
- **Overall Score**: Rate 1-10 for contract quality
- **Top 3 Concerns**: Most important issues to address
- **Recommendation**: Should they sign? (Yes/No/With changes)
- **Next Steps**: 3-5 action items

Keep your response concise and actionable. Use bullet points and short paragraphs.".

Record t : Type := { agent : Agent }.

Definition init (environ : gmap string pystr) : t :=
  {| agent := {| name := lit "Manager Agent";
                 model := {| id := lit "mistral-large-latest";
                             api_key := getenv environ "MISTRAL_API_KEY" |};
                 instructions := INSTRUCTIONS;
                 markdown := true |} |}.

(** The three values read from [agent_results] before the prompt is
    built. *)
Definition structure_analysis (agent_results : gmap string result) : pyval :=
  dict_get (dict_get agent_results "structure" ∅) "content"
           (PStr (lit "No structural analysis available")).

Definition legal_analysis (agent_results : gmap string result) : pyval :=
  dict_get (dict_get agent_results "legal" ∅) "content"
           (PStr (lit "No legal analysis available")).

Definition negotiation_analysis (agent_results : gmap string result) : pyval :=
  dict_get (dict_get agent_results "negotiation" ∅) "content"
           (PStr (lit "No negotiation analysis available")).

Definition prompt_head : pystr := lit
"Consolidate these agent findings into a brief executive summary:

**Structure Analysis:**
".

Definition prompt_legal : pystr := lit
"

**Legal Analysis:**
".

Definition prompt_negotiation : pystr := lit
"

**Negotiation Analysis:**
".

Definition prompt_tail : pystr := lit
"

Provide a short, actionable summary with your recommendation.".

Definition prompt (agent_results : gmap string result) : pystr :=
  prompt_head ++ py_str (structure_analysis agent_results)
  ++ prompt_legal ++ py_str (legal_analysis agent_results)
  ++ prompt_negotiation ++ py_str (negotiation_analysis agent_results)
  ++ prompt_tail.

Definition analyze (self : t) (agent_results : gmap string result) : coro result :=
  Await (agent self) (prompt agent_results) (λ o,
    match o with
    | Returns response =>
        Done (Returns {[ "agent" := PStr (lit "Manager Agent");
                         "analysis_type" := PStr (lit "consolidated");
                         "content" := content response;
                         "run_id" := run_id_field response ]})
    | Raises e =>
        Done (Returns {[ "agent" := PStr (lit "Manager Agent");
                         "analysis_type" := PStr (lit "consolidated");
                         "content" := PStr (warning_sign ++ lit " Consolidation failed: " ++ exc_str e);
                         "error" := PStr (exc_str e) ]})
    end).

End ManagerAgent.

(** ** The event loop

    What can be observed of a run: a task reaching
    [await agent.arun(prompt)], and an awaitable handed to
    [asyncio.gather] reaching a terminal state. *)
Inductive event : Type :=
| EvArun (a : Agent) (prompt : pystr)
| EvTerminal (i : nat) (o : outcome result).

(** A run of an awaited computation: what was observed, and how it ended
    ([None]: the awaiting code is never resumed, because an external call
    it depends on never completes). *)
Definition run (A : Type) : Type := list event * option (outcome A).

Definition finished (c : coro result) : option result :=
  match c with
  | Done (Returns r) => Some r
  | _ => None
  end.

Definition raised (c : coro result) : option Exception :=
  match c with
  | Done (Raises e) => Some e
  | _ => None
  end.

(** The event of a task that has just been run up to its next suspension
    or to its end. *)
Definition progress_event (i : nat) (c : coro result) : event :=
  match c with
  | Done o => EvTerminal i o
  | Await a p _ => EvArun a p
  end.

Section EventLoop.

(** The process environment and the behaviour of the external service
    during the run. *)
Context (environ : gmap string pystr) (arun : service).

(** [await c] for a coroutine that is awaited directly. *)
Fixpoint await (c : coro result) : list event * outcome result :=
  match c with
  | Done o => ([], o)
  | Await a p k =>
      let '(tr, o) := await (k (arun a p)) in (EvArun a p :: tr, o)
  end.

(** The join of [asyncio.gather] over [aws] with the default
    [return_exceptions=False]. [order] lists, one after the other, the
    task whose pending external call completes next. When every task
    has returned, the awaiting code is resumed with the list of results
    in the order of [aws]; the first task that raises resumes it with
    that exception at once. A task that has ended ignores its turn. *)
Fixpoint gather_loop (order : list nat) (ts : list (coro result)) : run (list result) :=
  match mapM finished ts with
  | Some rs => ([], Some (Returns rs))
  | None =>
      match order with
      | [] => ([], None)
      | i :: order' =>
          match ts !! i with
          | Some (Await a p k) =>
              let c := k (arun a p) in
              match raised c with
              | Some e => ([progress_event i c], Some (Raises e))
              | None =>
                  let '(tr, r) := gather_loop order' (<[i:=c]> ts) in
                  (progress_event i c :: tr, r)
              end
          | _ => gather_loop order' ts
          end
      end
  end.

(** [await asyncio.gather] over [aws]: the tasks are started in the order of
    [aws], each running up to its first suspension, then the loop waits
    for external calls to complete. *)
Definition gather (order : list nat) (aws : list (coro result)) : run (list result) :=
  let starts := imap progress_event aws in
  match omap raised aws with
  | e :: _ => (starts, Some (Raises e))
  | [] => let '(tr, r) := gather_loop order aws in (starts ++ tr, r)
  end.

(** ** telegram_bot.py *)

(** The dictionary returned by [run_agents]. *)
Record Results : Type := {
  agents : gmap string result;
  consolidated : result
}.

(** Unpacking a sequence into three names fails unless it has exactly
    three items; [items] is a sequence of another length. *)
Definition unpack_error (items : list result) : Exception :=
  {| exc_class := "ValueError";
     exc_str :=
       match items with
       | [] => lit "not enough values to unpack (expected 3, got 0)"
       | [_] => lit "not enough values to unpack (expected 3, got 1)"
       | [_; _] => lit "not enough values to unpack (expected 3, got 2)"
       | _ => lit "too many values to unpack (expected 3)"
       end |}.

Definition run_agents (order : list nat) (contract_text : pystr) : run Results :=
  let structure_agent := ContractStructureAgent.init environ in
  let legal_agent := LegalFrameworkAgent.init environ in
  let negotiation_agent := NegotiationAgent.init environ in
  let manager_agent := ManagerAgent.init environ in
  let '(tr1, g) :=
    gather order [ ContractStructureAgent.analyze structure_agent contract_text;
                   LegalFrameworkAgent.analyze legal_agent contract_text;
                   NegotiationAgent.analyze negotiation_agent contract_text ] in
  match g with
  | None => (tr1, None)
  | Some (Raises e) => (tr1, Some (Raises e))
  | Some (Returns [structure_result; legal_result; negotiation_result]) =>
      let agent_results : gmap string result :=
        {[ "structure" := structure_result;
           "legal" := legal_result;
           "negotiation" := negotiation_result ]} in
      let '(tr2, m) := await (ManagerAgent.analyze manager_agent agent_results) in
      match m with
      | Returns manager_result =>
          (tr1 ++ tr2,
           Some (Returns {| agents := agent_results; consolidated := manager_result |}))
      | Raises e => (tr1 ++ tr2, Some (Raises e))
      end
  | Some (Returns items) => (tr1, Some (Raises (unpack_error items)))
  end.

(** ** app.py *)

Definition run_parallel_analysis (order : list nat) (contract_text : pystr)
  : run (gmap string result) :=
  let structure_agent := ContractStructureAgent.init environ in
  let legal_agent := LegalFrameworkAgent.init environ in
  let negotiation_agent := NegotiationAgent.init environ in
  let '(tr, g) :=
    gather order [ ContractStructureAgent.analyze structure_agent contract_text;
                   LegalFrameworkAgent.analyze legal_agent contract_text;
                   NegotiationAgent.analyze negotiation_agent contract_text ] in
  match g with
  | None => (tr, None)
  | Some (Raises e) => (tr, Some (Raises e))
  | Some (Returns [structure_result; legal_result; negotiation_result]) =>
      (tr, Some (Returns {[ "structure" := structure_result;
                            "legal" := legal_result;
                            "negotiation" := negotiation_result ]}))
  | Some (Returns items) => (tr, Some (Raises (unpack_error items)))
  end.

Definition run_manager_analysis (agent_results : gmap string result)
  : list event * outcome result :=
  let manager_agent := ManagerAgent.init environ in
  await (ManagerAgent.analyze manager_agent agent_results).

(** The two stages as [main] runs them for the Analyze button:
    [asyncio.run(run_parallel_analysis(contract_text))] and then
    [asyncio.run(run_manager_analysis(agent_results))]. *)
Definition main_analysis (order : list nat) (contract_text : pystr) : run Results :=
  let '(tr1, p) := run_parallel_analysis order contract_text in
  match p with
  | None => (tr1, None)
  | Some (Raises e) => (tr1, Some (Raises e))
  | Some (Returns agent_results) =>
      let '(tr2, m) := run_manager_analysis agent_results in
      match m with
      | Returns manager_result =>
          (tr1 ++ tr2,
           Some (Returns {| agents := agent_results; consolidated := manager_result |}))
      | Raises e => (tr1 ++ tr2, Some (Raises e))
      end
  end.

End EventLoop.

(** ** utils/document_processor.py *)

(** [s.endswith(suffix)] *)
Definition endswith (s suffix : pystr) : bool := bool_decide (suffix `suffix_of` s).

(** [sub in s] for two strings: [sub] occurs in [s] as a contiguous run. *)
Fixpoint contains (sub s : pystr) : bool :=
  bool_decide (sub `prefix_of` s) ||
  match s with
  | [] => false
  | _ :: s' => contains sub s'
  end.

(** [sep.join(parts)] *)
Fixpoint join (sep : pystr) (parts : list pystr) : pystr :=
  match parts with
  | [] => []
  | [p] => p
  | p :: ps => p ++ sep ++ join sep ps
  end.

(** The code points that [str.strip] removes: those for which
    [str.isspace] holds. *)
Definition isspace (c : N) : bool :=
  ((9 <=? c) && (c <=? 13) || (28 <=? c) && (c <=? 32) || (c =? 133) || (c =? 160)
   || (c =? 5760) || (8192 <=? c) && (c <=? 8202) || (c =? 8232) || (c =? 8233)
   || (c =? 8239) || (c =? 8287) || (c =? 12288))%N.

Fixpoint lstrip (s : pystr) : pystr :=
  match s with
  | c :: s' => if isspace c then lstrip s' else s
  | [] => []
  end.

Definition strip (s : pystr) : pystr := reverse (lstrip (reverse (lstrip s))).

(** A [str] is true when it is not empty. *)
Definition nonempty (s : pystr) : bool :=
  match s with
  | [] => false
  | _ :: _ => true
  end.

(** The Streamlit [UploadedFile]: what [read()], [name] and [type] give. *)
Module UploadedFile.
Record t : Type := { read : list Byte.byte; name : pystr; type : pystr }.
End UploadedFile.

(** What [docx.Document] exposes of a parsed file: the text of each
    paragraph, and for each table its rows of cell texts. *)
Record DocxDocument : Type := {
  paragraphs : list pystr;
  tables : list (list (list pystr))
}.

(** A call into one of the two parsing libraries. *)
Inductive parse_call : Type :=
| CallPdfReader (file_bytes : list Byte.byte)
| CallDocument (file_bytes : list Byte.byte).

(** A computation that may call the parsers and may raise: the calls it
    made, in order, and how it ended. *)
Definition parsing (A : Type) : Type := list parse_call * outcome A.

#[global] Instance parsing_ret : MRet parsing := λ A a, ([], Returns a).

Definition parsing_raise {A : Type} (e : Exception) : parsing A := ([], Raises e).

#[global] Instance parsing_bind : MBind parsing := λ A B f m,
  match m with
  | (calls, Returns a) => let '(calls', o) := f a in (calls ++ calls', o)
  | (calls, Raises e) => (calls, Raises e)
  end.

Section DocumentProcessor.

(** The two parsers ([PyPDF2.PdfReader] with the text of each page, and
    [docx.Document]) and the case mapping of [str.lower] belong to
    libraries; the extraction code is stated over any behaviour of
    theirs. *)
Context (PdfReader : list Byte.byte → outcome (list pystr))
        (Document : list Byte.byte → outcome DocxDocument)
        (lower : pystr → pystr).

Definition extract_text_from_pdf (file_bytes : list Byte.byte) : parsing pystr :=
  pages ← ([CallPdfReader file_bytes], PdfReader file_bytes) : parsing _;
  let text_parts := filter (λ page_text, nonempty page_text = true) pages in
  mret (join (lit "

") text_parts).

(** The text contributed by one table row, if any of its cells is not
    blank. *)
Definition row_part (row : list pystr) : list pystr :=
  let row_text := strip <$> filter (λ cell, nonempty (strip cell) = true) row in
  match row_text with
  | [] => []
  | _ :: _ => [join (lit " | ") row_text]
  end.

Definition extract_text_from_docx (file_bytes : list Byte.byte) : parsing pystr :=
  doc ← ([CallDocument file_bytes], Document file_bytes) : parsing _;
  let text_parts :=
    filter (λ paragraph, nonempty (strip paragraph) = true) (paragraphs doc)
    ++ (table ← tables doc; row ← table; row_part row) in
  mret (join (lit "

") text_parts).

(** The two tests of the entry point on the declared type of the file. *)
Definition pdf_typed (uploaded_file : UploadedFile.t) : bool :=
  endswith (lower (UploadedFile.name uploaded_file)) (lit ".pdf")
  || contains (lit "pdf") (UploadedFile.type uploaded_file).

Definition docx_typed (uploaded_file : UploadedFile.t) : bool :=
  endswith (lower (UploadedFile.name uploaded_file)) (lit ".docx")
  || contains (lit "wordprocessingml") (UploadedFile.type uploaded_file).

Definition unsupported (file_type : pystr) : Exception :=
  {| exc_class := "ValueError";
     exc_str := lit "Unsupported file type: " ++ file_type
                ++ lit ". Please upload a PDF or DOCX file." |}.

Definition extract_text_from_file (uploaded_file : UploadedFile.t) : parsing pystr :=
  let file_bytes := UploadedFile.read uploaded_file in
  let file_name := lower (UploadedFile.name uploaded_file) in
  let file_type := UploadedFile.type uploaded_file in
  if endswith file_name (lit ".pdf") || contains (lit "pdf") file_type then
    extract_text_from_pdf file_bytes
  else if endswith file_name (lit ".docx") || contains (lit "wordprocessingml") file_type then
    extract_text_from_docx file_bytes
  else
    parsing_raise (unsupported file_type).

End DocumentProcessor.

(** ** The three phase-1 workers, by analysis kind

    [run_agents] and [run_parallel_analysis] hand the three [analyze]
    coroutines to [asyncio.gather] in this order and store their results
    under these keys. *)
Inductive lens : Type := Structure | Legal | Negotiation.

#[global] Instance lens_eq_dec : EqDecision lens.
Proof. solve_decision. Defined.

Definition lens_index (l : lens) : nat :=
  match l with Structure => 0 | Legal => 1 | Negotiation => 2 end.

Definition lens_key (l : lens) : string :=
  match l with
  | Structure => "structure"
  | Legal => "legal"
  | Negotiation => "negotiation"
  end.

Definition lens_agent (environ : gmap string pystr) (l : lens) : Agent :=
  match l with
  | Structure => ContractStructureAgent.agent (ContractStructureAgent.init environ)
  | Legal => LegalFrameworkAgent.agent (LegalFrameworkAgent.init environ)
  | Negotiation => NegotiationAgent.agent (NegotiationAgent.init environ)
  end.

Definition lens_prompt (l : lens) : pystr → pystr :=
  match l with
  | Structure => ContractStructureAgent.prompt
  | Legal => LegalFrameworkAgent.prompt
  | Negotiation => NegotiationAgent.prompt
  end.

Definition lens_prompt_head (l : lens) : pystr :=
  match l with
  | Structure => ContractStructureAgent.prompt_head
  | Legal => LegalFrameworkAgent.prompt_head
  | Negotiation => NegotiationAgent.prompt_head
  end.

Definition lens_prompt_tail (l : lens) : pystr :=
  match l with
  | Structure => ContractStructureAgent.prompt_tail
  | Legal => LegalFrameworkAgent.prompt_tail
  | Negotiation => NegotiationAgent.prompt_tail
  end.

Definition lens_analyze (environ : gmap string pystr) (l : lens) : pystr → coro result :=
  match l with
  | Structure => ContractStructureAgent.analyze (ContractStructureAgent.init environ)
  | Legal => LegalFrameworkAgent.analyze (LegalFrameworkAgent.init environ)
  | Negotiation => NegotiationAgent.analyze (NegotiationAgent.init environ)
  end.

(** The manager's reading of one section of [agent_results], and the text
    it falls back on. *)
Definition manager_input (l : lens) : gmap string result → pyval :=
  match l with
  | Structure => ManagerAgent.structure_analysis
  | Legal => ManagerAgent.legal_analysis
  | Negotiation => ManagerAgent.negotiation_analysis
  end.

Definition placeholder (l : lens) : pystr :=
  match l with
  | Structure => lit "No structural analysis available"
  | Legal => lit "No legal analysis available"
  | Negotiation => lit "No negotiation analysis available"
  end.

(** ** Vocabulary of the statements *)

(** What a worker's result [r] says about an external call that ended as
    [o]: the generated content and no [error] key, or the failure notice
    and the exception text. *)
Definition reports (notice : pystr) (o : outcome RunResponse) (r : result) : Prop :=
  match o with
  | Returns response =>
      r !! "content" = Some (content response) ∧ r !! "error" = None
  | Raises e =>
      r !! "content" = Some (PStr (warning_sign ++ notice ++ exc_str e))
      ∧ r !! "error" = Some (PStr (exc_str e))
  end.

(** The section [key] of [agent_results] is absent, or is a dictionary
    without a [content] key. *)
Definition lacks_content (agent_results : gmap string result) (key : string) : Prop :=
  agent_results !! key = None
  ∨ ∃ entry, agent_results !! key = Some entry ∧ entry !! "content" = None.

(** The tasks of [gather] complete one after the other in the order
    [order]: an interleaving of the three phase-1 tasks. *)
Definition completion_order (order : list nat) : Prop := order ≡ₚ [0; 1; 2].

(** A coroutine that keeps the fail-soft contract: whatever the external
    call does, it ends by returning a result. *)
Definition fail_soft (c : coro result) : Prop :=
  match c with
  | Done (Returns _) => True
  | Done (Raises _) => False
  | Await _ _ k => ∀ o, ∃ r, k o = Done (Returns r)
  end.

(** Where a one-call coroutine stands once its external call has
    completed. *)
Definition settle (arun : service) (c : coro result) : coro result :=
  match c with
  | Done o => Done o
  | Await a p k => k (arun a p)
  end.

(** The three external calls that open phase 1, in the order in which
    [gather] starts its tasks. *)
Definition phase1_calls (environ : gmap string pystr) (contract_text : pystr)
  : list event :=
  [ EvArun (lens_agent environ Structure) (lens_prompt Structure contract_text);
    EvArun (lens_agent environ Legal) (lens_prompt Legal contract_text);
    EvArun (lens_agent environ Negotiation) (lens_prompt Negotiation contract_text) ].

(** The aggregated results built from one result per analysis kind. *)
Definition aggregate (results : lens → result) : gmap string result :=
  {[ "structure" := results Structure;
     "legal" := results Legal;
     "negotiation" := results Negotiation ]}.

(** ** Sample inputs *)

Definition stub_ok : RunResponse :=
  {| content := PStr (lit "stub-ok"); run_id := None |}.

Definition stub_service : service := λ _ _, Returns stub_ok.

Definition timeout_error : Exception :=
  {| exc_class := "TimeoutError"; exc_str := lit "request timed out" |}.

(** A service that times out for the legal worker only. *)
Definition legal_timeout_service : service := λ a _,
  if decide (name a = lit "Legal Framework Agent")
  then Raises timeout_error
  else Returns stub_ok.

(** The aggregated results when the structure worker got an empty text
    from the service, and when it got no text at all. *)
Definition empty_structure_results : gmap string result :=
  {[ "structure" := {[ "agent" := PStr (lit "Contract Structure Agent");
                       "analysis_type" := PStr (lit "structural");
                       "content" := PStr [];
                       "run_id" := PNone ]} ]}.

Definition null_structure_results : gmap string result :=
  {[ "structure" := {[ "agent" := PStr (lit "Contract Structure Agent");
                       "analysis_type" := PStr (lit "structural");
                       "content" := PNone;
                       "run_id" := PNone ]} ]}.

(** A document of 8001 characters. *)
Definition long_document : pystr := replicate (N.to_nat 8001) 65%N.

(** [str.lower] on ASCII text. *)
Definition ascii_lower (s : pystr) : pystr :=
  (λ c, if (65 <=? c)%N && (c <=? 90)%N then (c + 32)%N else c) <$> s.

Definition sample_PdfReader : list Byte.byte → outcome (list pystr) :=
  λ _, Returns [lit "page one"].

Definition sample_Document : list Byte.byte → outcome DocxDocument :=
  λ _, Returns {| paragraphs := [lit "paragraph one"]; tables := [] |}.

(** A file named like a Word document whose declared MIME type is that of
    a PDF. *)
Definition docx_named_pdf : UploadedFile.t :=
  {| UploadedFile.read := [];
     UploadedFile.name := lit "contract.docx";
     UploadedFile.type := lit "application/pdf" |}.

(** A file that is neither a PDF nor a Word document. *)
Definition plain_text_file : UploadedFile.t :=
  {| UploadedFile.read := [];
     UploadedFile.name := lit "notes.txt";
     UploadedFile.type := lit "text/plain" |}.

(** ** telegram_bot.py: formatting and sending the results *)

(** Telegram message limit *)
Definition MAX_MESSAGE_LENGTH : nat := 4096.

Definition truncation_note : pystr := lit "

_...truncated for length_".

(** The content read from a result is a [str] or [None]; neither has a
    [content] attribute, so the [hasattr] branch leaves it as it is. *)
Definition format_agent_result (title icon : pystr) (result : result) : pystr :=
  let content := dict_get result "content" (PStr (lit "No analysis available")) in
  let content := py_str content in
  let content :=
    if 3000 <? length content
    then slice_to 3000 content ++ truncation_note
    else content in
  icon ++ lit " *" ++ title ++ lit "*

" ++ content.

(** What the bot does through the Telegram API, and [asyncio.sleep]. *)
Inductive bot_action : Type :=
| ReplyText (text : pystr) (parse_mode : option string)
| EditText (text : pystr) (parse_mode : option string)
| Delete
| Download (file_id : pystr)
| Sleep (milliseconds : N).

(** How the Telegram API answers a call, given all that the bot did
    before it. *)
Definition telegram : Type := list bot_action → bot_action → outcome unit.

(** A computation of the bot: from the actions done so far to the actions
    done at its end and the way it ended. *)
Definition bot (A : Type) : Type := list bot_action → list bot_action * outcome A.

#[global] Instance bot_ret : MRet bot := λ A a log, (log, Returns a).

#[global] Instance bot_bind : MBind bot := λ A B f m log,
  match m log with
  | (log', Returns a) => f a log'
  | (log', Raises e) => (log', Raises e)
  end.

(** One call of the API. *)
Definition perform (tg : telegram) (a : bot_action) : bot unit :=
  λ log, (log ++ [a], tg log a).

(** [await asyncio.sleep(...)] *)
Definition sleep (milliseconds : N) : bot unit :=
  λ log, (log ++ [Sleep milliseconds], Returns ()).

(** [try: body except Exception: handler] *)
Definition try_except {A : Type} (body : bot A) (handler : Exception → bot A) : bot A :=
  λ log,
    match body log with
    | (log', Raises e) => handler e log'
    | done => done
    end.

(** [s.split(sep)] for a separator of one character. *)
Fixpoint split_on (sep : N) (s : pystr) : list pystr :=
  match s with
  | [] => [[]]
  | c :: s' =>
      if (c =? sep)%N then [] :: split_on sep s'
      else match split_on sep s' with
           | line :: lines => (c :: line) :: lines
           | [] => [[c]]
           end
  end.

Definition newline : N := 10%N.

(** The loop of [send_long_message] over the lines of the text: the
    chunks closed so far and the chunk being filled. *)
Fixpoint fill_chunks (lines : list pystr) (chunks : list pystr) (current_chunk : pystr)
  : list pystr * pystr :=
  match lines with
  | [] => (chunks, current_chunk)
  | line :: lines' =>
      if length current_chunk + length line + 1 <=? MAX_MESSAGE_LENGTH
      then fill_chunks lines' chunks (current_chunk ++ line ++ [newline])
      else fill_chunks lines'
             (if nonempty current_chunk then chunks ++ [strip current_chunk] else chunks)
             (line ++ [newline])
  end.

(** The chunks that [send_long_message] builds for a long text. *)
Definition message_chunks (text : pystr) : list pystr :=
  let '(chunks, current_chunk) := fill_chunks (split_on newline text) [] [] in
  if nonempty current_chunk then chunks ++ [strip current_chunk] else chunks.

(** The loop of [send_long_message] over the chunks. *)
Fixpoint send_chunks (tg : telegram) (chunks : list pystr) : bot unit :=
  match chunks with
  | [] => mret ()
  | chunk :: chunks' =>
      try_except (perform tg (ReplyText chunk (Some "Markdown")))
                 (λ _, perform tg (ReplyText chunk None)) ≫= λ _,
      sleep 300 ≫= λ _,
      send_chunks tg chunks'
  end.

Definition send_long_message (tg : telegram) (text : pystr) : bot unit :=
  if length text <=? MAX_MESSAGE_LENGTH
  then perform tg (ReplyText text (Some "Markdown"))
  else send_chunks tg (message_chunks text).

(** The icons of the four reports: U+1F3D7 U+FE0F, U+2696 U+FE0F,
    U+1F91D and U+1F454. *)
Definition structure_icon : pystr := [127959%N; 65039%N].
Definition legal_icon : pystr := [9878%N; 65039%N].
Definition negotiation_icon : pystr := [129309%N].
Definition manager_icon : pystr := [128084%N].

(** The loop of [send_results] over the three agent messages. *)
Fixpoint send_agent_messages (tg : telegram) (messages : list (pystr * pystr * result))
  : bot unit :=
  match messages with
  | [] => mret ()
  | (title, icon, result) :: messages' =>
      let formatted := format_agent_result title icon result in
      send_long_message tg formatted ≫= λ _,
      sleep 500 ≫= λ _,
      send_agent_messages tg messages'
  end.

(** The separator line: thirty times U+2500. *)
Definition separator : pystr := replicate 30 9472%N.

Definition send_results (tg : telegram) (results : Results) : bot unit :=
  let agent_results := agents results in
  let consolidated := consolidated results in
  let messages :=
    [ (lit "Structure Analysis", structure_icon, dict_get agent_results "structure" ∅);
      (lit "Legal Analysis", legal_icon, dict_get agent_results "legal" ∅);
      (lit "Negotiation Analysis", negotiation_icon, dict_get agent_results "negotiation" ∅) ] in
  send_agent_messages tg messages ≫= λ _,
  perform tg (ReplyText separator None) ≫= λ _,
  let consolidated_text :=
    format_agent_result (lit "Executive Report") manager_icon consolidated in
  send_long_message tg consolidated_text.

(** ** app.py: showing and exporting the results *)

(** The calls into Streamlit that show a result. *)
Inductive st_call : Type :=
| StExpander (label : pystr) (expanded : bool)
| StMarkdown (body : pystr)
| StError (body : pystr)
| StWarning (body : pystr).

(** A dictionary is true when it is not empty; [None] is false. *)
Definition truthy_result (result : option result) : bool :=
  match result with
  | Some r => bool_decide (r ≠ ∅)
  | None => false
  end.

(** [key in result], for a [result] that is true. *)
Definition has_key (result : option result) (key : string) : bool :=
  match result with
  | Some r => bool_decide (is_Some (r !! key))
  | None => false
  end.

(** [result[key]], once [key in result] holds. *)
Definition subscript (result : option result) (key : string) : pyval :=
  match result with
  | Some r => default PNone (r !! key)
  | None => PNone
  end.

Definition display_agent_result (title : pystr) (result : option result)
    (card_class icon : pystr) : list st_call :=
  StExpander (icon ++ lit " " ++ title) true ::
  if truthy_result result && has_key result "content" then
    let content := subscript result "content" in
    [StMarkdown (py_str content)]
  else if truthy_result result && has_key result "error" then
    [StError (lit "Error: " ++ py_str (subscript result "error"))]
  else
    [StWarning (lit "No analysis available")].

(** The preview of the extracted text that [main] shows. *)
Definition document_preview (contract_text : pystr) : pystr :=
  slice_to 5000 contract_text ++ (if 5000 <? length contract_text then lit "..." else []).

(** The dictionary that [main] offers for download. *)
Definition all_results (agent_results : gmap string result) (manager_result : result)
  : gmap string result :=
  {[ "structure_analysis" := dict_get agent_results "structure" ∅;
     "legal_analysis" := dict_get agent_results "legal" ∅;
     "negotiation_analysis" := dict_get agent_results "negotiation" ∅;
     "consolidated_report" := manager_result ]}.

(** A character that [str.strip] keeps wherever it stands. *)
Definition visible (c : N) : Prop := isspace c = false.

#[global] Instance visible_dec c : Decision (visible c).
Proof. unfold visible. apply _. Defined.

(** The texts of the replies in a log, in the order in which they were
    sent. *)
Definition replied_texts (log : list bot_action) : list pystr :=
  omap (λ a, match a with ReplyText text _ => Some text | _ => None end) log.

(** A Telegram API that refuses every reply with a parse mode and accepts
    everything else. *)
Definition plain_only_telegram : telegram := λ _ a,
  match a with
  | ReplyText _ (Some _) =>
      Raises {| exc_class := "BadRequest"; exc_str := lit "Can't parse entities" |}
  | _ => Returns ()
  end.

(** A text of two lines of 3000 characters each. *)
Definition two_long_lines : pystr :=
  replicate 3000 97%N ++ [newline] ++ replicate 3000 98%N.

(** A text of 4097 characters on one line. *)
Definition one_long_line : pystr := replicate 4097 97%N.

(** The texts of the replies sent with a parse mode, and of those sent
    without one. *)
Definition markdown_texts (log : list bot_action) : list pystr :=
  omap (λ a, match a with ReplyText text (Some _) => Some text | _ => None end) log.

Definition plain_texts (log : list bot_action) : list pystr :=
  omap (λ a, match a with ReplyText text None => Some text | _ => None end) log.

(** What [send_results] does when the API accepts every call. *)
Definition results_actions (results : Results) : list bot_action :=
  [ ReplyText (format_agent_result (lit "Structure Analysis") structure_icon
                 (dict_get (agents results) "structure" ∅)) (Some "Markdown");
    Sleep 500;
    ReplyText (format_agent_result (lit "Legal Analysis") legal_icon
                 (dict_get (agents results) "legal" ∅)) (Some "Markdown");
    Sleep 500;
    ReplyText (format_agent_result (lit "Negotiation Analysis") negotiation_icon
                 (dict_get (agents results) "negotiation" ∅)) (Some "Markdown");
    Sleep 500;
    ReplyText separator None;
    ReplyText (format_agent_result (lit "Executive Report") manager_icon
                 (consolidated results)) (Some "Markdown") ].

(** Doing a list of actions one after the other, up to the first call
    that the API refuses. *)
Fixpoint do_all (tg : telegram) (actions : list bot_action) : bot unit :=
  match actions with
  | [] => mret ()
  | a :: actions' =>
      (match a with Sleep milliseconds => sleep milliseconds | _ => perform tg a end)
      ≫= λ _, do_all tg actions'
  end.

(** * Properties *)

(** ** The workers *)

Lemma lens_analyze_unfold environ l contract_text :
  ∃ k, lens_analyze environ l contract_text
       = Await (lens_agent environ l) (lens_prompt l contract_text) k
       ∧ ∀ o, ∃ r, k o = Done (Returns r)
              ∧ reports (lit " Analysis failed: ") o r.
Proof.
  destruct l; (eexists; split; [reflexivity|]);
    intros [response|e]; eexists; (split; [reflexivity|]); by split.
Qed.

Lemma manager_analyze_unfold environ agent_results :
  ∃ k, ManagerAgent.analyze (ManagerAgent.init environ) agent_results
       = Await (ManagerAgent.agent (ManagerAgent.init environ))
               (ManagerAgent.prompt agent_results) k
       ∧ ∀ o, ∃ r, k o = Done (Returns r)
              ∧ reports (lit " Consolidation failed: ") o r.
Proof.
  eexists; split; [reflexivity|].
  intros [response|e]; eexists; (split; [reflexivity|]); by split.
Qed.

Lemma await_one_call arun a p k r :
  k (arun a p) = Done (Returns r) →
  await arun (Await a p k) = ([EvArun a p], Returns r).
Proof. intros Hk. simpl. by rewrite Hk. Qed.

Lemma await_lens_analyze environ arun (l : lens) (contract_text : pystr) :
  ∃ r, await arun (lens_analyze environ l contract_text)
       = ([EvArun (lens_agent environ l) (lens_prompt l contract_text)], Returns r)
     ∧ reports (lit " Analysis failed: ")
               (arun (lens_agent environ l) (lens_prompt l contract_text)) r.
Proof.
  destruct (lens_analyze_unfold environ l contract_text) as (k & -> & Hk).
  destruct (Hk (arun (lens_agent environ l) (lens_prompt l contract_text)))
    as (r & Hr & Hrep).
  exists r. split; [by apply await_one_call | done].
Qed.

Lemma await_manager_analyze environ arun (agent_results : gmap string result) :
  ∃ r, await arun (ManagerAgent.analyze (ManagerAgent.init environ) agent_results)
       = ([EvArun (ManagerAgent.agent (ManagerAgent.init environ))
                  (ManagerAgent.prompt agent_results)], Returns r)
     ∧ reports (lit " Consolidation failed: ")
               (arun (ManagerAgent.agent (ManagerAgent.init environ))
                     (ManagerAgent.prompt agent_results)) r.
Proof.
  destruct (manager_analyze_unfold environ agent_results) as (k & -> & Hk).
  destruct (Hk (arun (ManagerAgent.agent (ManagerAgent.init environ))
                     (ManagerAgent.prompt agent_results))) as (r & Hr & Hrep).
  exists r. split; [by apply await_one_call | done].
Qed.


(** C9. On both paths the result of each worker carries the keys [agent]
    and [analysis_type], with constants fixed by the worker alone. *)
Theorem analyze_labels (environ : gmap string pystr) (arun : service) :
  (∀ contract_text, ∃ r,
     (await arun (ContractStructureAgent.analyze
                    (ContractStructureAgent.init environ) contract_text)).2 = Returns r
     ∧ r !! "agent" = Some (PStr (lit "Contract Structure Agent"))
     ∧ r !! "analysis_type" = Some (PStr (lit "structural")))
  ∧ (∀ contract_text, ∃ r,
     (await arun (LegalFrameworkAgent.analyze
                    (LegalFrameworkAgent.init environ) contract_text)).2 = Returns r
     ∧ r !! "agent" = Some (PStr (lit "Legal Framework Agent"))
     ∧ r !! "analysis_type" = Some (PStr (lit "legal")))
  ∧ (∀ contract_text, ∃ r,
     (await arun (NegotiationAgent.analyze
                    (NegotiationAgent.init environ) contract_text)).2 = Returns r
     ∧ r !! "agent" = Some (PStr (lit "Negotiation Agent"))
     ∧ r !! "analysis_type" = Some (PStr (lit "negotiation")))
  ∧ (∀ agent_results, ∃ r,
     (await arun (ManagerAgent.analyze
                    (ManagerAgent.init environ) agent_results)).2 = Returns r
     ∧ r !! "agent" = Some (PStr (lit "Manager Agent"))
     ∧ r !! "analysis_type" = Some (PStr (lit "consolidated"))).
Proof.
  repeat split; intros x; simpl;
    match goal with |- context [arun ?a ?p] => destruct (arun a p) end;
    eexists; (split; [reflexivity|]); by split.
Qed.

Lemma length_slice_to n (s : pystr) :
  N.to_nat n ≤ length s → length (slice_to n s) = N.to_nat n.
Proof. intros Hn. unfold slice_to. rewrite length_take. lia. Qed.

Lemma lens_prompt_unfold l contract_text :
  lens_prompt l contract_text
  = lens_prompt_head l ++ slice_to 8000 contract_text ++ lens_prompt_tail l.
Proof. by destruct l. Qed.

(** C4. For a document of more than 8000 characters, the prompt of each
    phase-1 worker is its fixed opening, then exactly the first 8000
    characters of the document, then its fixed closing: the excerpt is a
    proper prefix of the document, the prompt has the length of the frame
    plus 8000, and that prompt is the one sent to the service. *)
Theorem prompt_embeds_excerpt (environ : gmap string pystr) (arun : service)
    (l : lens) (contract_text : pystr) :
  N.to_nat 8000 < length contract_text →
  ∃ excerpt rest,
    contract_text = excerpt ++ rest
    ∧ length excerpt = N.to_nat 8000
    ∧ rest ≠ []
    ∧ lens_prompt l contract_text = lens_prompt_head l ++ excerpt ++ lens_prompt_tail l
    ∧ length (lens_prompt l contract_text)
      = length (lens_prompt_head l) + N.to_nat 8000 + length (lens_prompt_tail l)
    ∧ (await arun (lens_analyze environ l contract_text)).1
      = [EvArun (lens_agent environ l)
                (lens_prompt_head l ++ excerpt ++ lens_prompt_tail l)].
Proof.
  intros Hlen.
  exists (slice_to 8000 contract_text), (drop (N.to_nat 8000) contract_text).
  assert (Hex : length (slice_to 8000 contract_text) = N.to_nat 8000)
    by (apply length_slice_to; lia).
  split; [by unfold slice_to; rewrite take_drop|].
  split; [done|].
  split.
  { intros Hnil. apply (f_equal length) in Hnil.
    rewrite length_drop in Hnil. simpl in Hnil. lia. }
  split; [apply lens_prompt_unfold|].
  split.
  { rewrite lens_prompt_unfold, !length_app, Hex. lia. }
  rewrite <- lens_prompt_unfold.
  destruct (await_lens_analyze environ arun l contract_text) as (r & -> & _). done.
Qed.

Lemma prompt_embeds_excerpt_witness :
  ∃ excerpt rest,
    long_document = excerpt ++ rest
    ∧ length excerpt = N.to_nat 8000
    ∧ rest ≠ []
    ∧ lens_prompt Legal long_document
      = lens_prompt_head Legal ++ excerpt ++ lens_prompt_tail Legal
    ∧ length (lens_prompt Legal long_document)
      = length (lens_prompt_head Legal) + N.to_nat 8000 + length (lens_prompt_tail Legal)
    ∧ (await stub_service (lens_analyze ∅ Legal long_document)).1
      = [EvArun (lens_agent ∅ Legal)
                (lens_prompt_head Legal ++ excerpt ++ lens_prompt_tail Legal)].
Proof.
  apply (prompt_embeds_excerpt ∅ stub_service Legal long_document).
  unfold long_document. rewrite length_replicate. lia.
Defined.

(** ** The manager's inputs and prompt *)

Lemma dict_get_content_default (agent_results : gmap string result) key dflt :
  lacks_content agent_results key →
  dict_get (dict_get agent_results key ∅) "content" dflt = dflt.
Proof.
  unfold dict_get. intros [-> | (entry & -> & Hc)]; simpl.
  - by rewrite lookup_empty.
  - by rewrite Hc.
Qed.

(** C5, as the code has it. When a section of [agent_results] is absent,
    or is there without a [content] key, the manager reads the fixed
    placeholder of that section instead: the value that goes into the
    prompt is that text, which is neither [None] nor empty. *)
Theorem manager_placeholder (l : lens) (agent_results : gmap string result) :
  lacks_content agent_results (lens_key l) →
  manager_input l agent_results = PStr (placeholder l)
  ∧ py_str (manager_input l agent_results) = placeholder l
  ∧ manager_input l agent_results ≠ PNone
  ∧ manager_input l agent_results ≠ PStr [].
Proof.
  intros Hlacks.
  assert (H : manager_input l agent_results = PStr (placeholder l)).
  { destruct l; simpl in *;
      [unfold ManagerAgent.structure_analysis
      |unfold ManagerAgent.legal_analysis
      |unfold ManagerAgent.negotiation_analysis];
      by apply dict_get_content_default. }
  rewrite H. repeat split; [done|]. by destruct l.
Qed.

Lemma manager_placeholder_witness :
  lacks_content ({[ "structure" := {[ "agent" := PStr (lit "Contract Structure Agent") ]} ]}
                 : gmap string result) (lens_key Structure)
  ∧ lacks_content ({[ "structure" := {[ "agent" := PStr (lit "Contract Structure Agent") ]} ]}
                   : gmap string result) (lens_key Legal)
  ∧ manager_input Structure
      {[ "structure" := {[ "agent" := PStr (lit "Contract Structure Agent") ]} ]}
    = PStr (lit "No structural analysis available")
  ∧ manager_input Legal
      {[ "structure" := {[ "agent" := PStr (lit "Contract Structure Agent") ]} ]}
    = PStr (lit "No legal analysis available").
Proof.
  assert (H1 : lacks_content
                 ({[ "structure" := {[ "agent" := PStr (lit "Contract Structure Agent") ]} ]}
                  : gmap string result) (lens_key Structure)).
  { right. eexists. split; reflexivity. }
  assert (H2 : lacks_content
                 ({[ "structure" := {[ "agent" := PStr (lit "Contract Structure Agent") ]} ]}
                  : gmap string result) (lens_key Legal)).
  { left. reflexivity. }
  split; [exact H1|]. split; [exact H2|]. split.
  - exact (proj1 (manager_placeholder Structure _ H1)).
  - exact (proj1 (manager_placeholder Legal _ H2)).
Defined.

(** C5, as stated, fails: an entry whose [content] is the empty string,
    or [None], has no content to show, yet the manager reads that value
    and not the placeholder, and puts it into the prompt. *)
Lemma empty_content_reaches_prompt :
  manager_input Structure empty_structure_results = PStr []
  ∧ manager_input Structure empty_structure_results ≠ PStr (placeholder Structure)
  ∧ ManagerAgent.prompt empty_structure_results
    = ManagerAgent.prompt_head ++ []
      ++ ManagerAgent.prompt_legal ++ lit "No legal analysis available"
      ++ ManagerAgent.prompt_negotiation ++ lit "No negotiation analysis available"
      ++ ManagerAgent.prompt_tail
  ∧ manager_input Structure null_structure_results = PNone
  ∧ ManagerAgent.prompt null_structure_results
    = ManagerAgent.prompt_head ++ lit "None"
      ++ ManagerAgent.prompt_legal ++ lit "No legal analysis available"
      ++ ManagerAgent.prompt_negotiation ++ lit "No negotiation analysis available"
      ++ ManagerAgent.prompt_tail.
Proof. repeat split; by vm_compute. Qed.




(** ** Text extraction *)

Lemma endswith_spec (s suffix : pystr) :
  endswith s suffix = true ↔ ∃ front, s = front ++ suffix.
Proof. unfold endswith. rewrite bool_decide_eq_true. done. Qed.

Lemma contains_spec (sub s : pystr) :
  contains sub s = true ↔ ∃ before after, s = before ++ sub ++ after.
Proof.
  induction s as [|c s IH]; simpl.
  - rewrite orb_false_r, bool_decide_eq_true. split.
    + intros [after ->]. by exists [], after.
    + intros (before & after & H). destruct before; [by exists after|done].
  - rewrite orb_true_iff, bool_decide_eq_true, IH. split.
    + intros [[after ->] | (before & after & ->)].
      * by exists [], after.
      * by exists (c :: before), after.
    + intros (before & after & H). destruct before as [|c' before].
      * left. by exists after.
      * right. injection H as -> ->. by exists before, after.
Qed.

Section DocumentProcessorFacts.

Context (PdfReader : list Byte.byte → outcome (list pystr))
        (Document : list Byte.byte → outcome DocxDocument)
        (lower : pystr → pystr).

Lemma extract_text_from_pdf_calls file_bytes :
  (extract_text_from_pdf PdfReader file_bytes).1 = [CallPdfReader file_bytes].
Proof.
  unfold extract_text_from_pdf, mbind, parsing_bind.
  by destruct (PdfReader file_bytes).
Qed.

Lemma extract_text_from_docx_calls file_bytes :
  (extract_text_from_docx Document file_bytes).1 = [CallDocument file_bytes].
Proof.
  unfold extract_text_from_docx, mbind, parsing_bind.
  by destruct (Document file_bytes).
Qed.

Lemma extract_text_from_file_cases uploaded_file :
  extract_text_from_file PdfReader Document lower uploaded_file
  = if pdf_typed lower uploaded_file
    then extract_text_from_pdf PdfReader (UploadedFile.read uploaded_file)
    else if docx_typed lower uploaded_file
    then extract_text_from_docx Document (UploadedFile.read uploaded_file)
    else ([], Raises (unsupported (UploadedFile.type uploaded_file))).
Proof. reflexivity. Qed.

End DocumentProcessorFacts.

(** C7, as the code has it. The entry point raises its [ValueError] for
    an unsupported type, without calling a parser, exactly when the file
    is neither PDF-typed nor DOCX-typed. A PDF-typed file gets the PDF
    extraction; a DOCX-typed file gets the DOCX extraction when it is not
    PDF-typed as well. *)
Theorem extract_text_from_file_dispatch
    (PdfReader : list Byte.byte → outcome (list pystr))
    (Document : list Byte.byte → outcome DocxDocument)
    (lower : pystr → pystr) (uploaded_file : UploadedFile.t) :
  let extracted := extract_text_from_file PdfReader Document lower uploaded_file in
  (extracted = ([], Raises (unsupported (UploadedFile.type uploaded_file)))
   ↔ pdf_typed lower uploaded_file = false ∧ docx_typed lower uploaded_file = false)
  ∧ (extracted.1 = []
     ↔ pdf_typed lower uploaded_file = false ∧ docx_typed lower uploaded_file = false)
  ∧ (pdf_typed lower uploaded_file = true →
     extracted = extract_text_from_pdf PdfReader (UploadedFile.read uploaded_file))
  ∧ (docx_typed lower uploaded_file = true →
     pdf_typed lower uploaded_file = false →
     extracted = extract_text_from_docx Document (UploadedFile.read uploaded_file)).
Proof.
  intros extracted. subst extracted.
  rewrite extract_text_from_file_cases.
  pose proof (extract_text_from_pdf_calls PdfReader (UploadedFile.read uploaded_file)) as Hpdf.
  pose proof (extract_text_from_docx_calls Document (UploadedFile.read uploaded_file)) as Hdocx.
  assert (Hfst : ∀ x y : parsing pystr, x = y → x.1 = y.1) by by intros ? ? ->.
  destruct (pdf_typed lower uploaded_file), (docx_typed lower uploaded_file);
    (split; [split; [intros Heq; apply Hfst in Heq; simpl in Heq; by try congruence
                    |by intros [? ?]]|]);
    (split; [split; [intros Heq; simpl in Heq; by try congruence
                    |by intros [? ?]]|]);
    by split.
Qed.

(** C7, as stated, fails: a file named [contract.docx] whose declared
    MIME type is [application/pdf] is DOCX-typed, and it gets the PDF
    extraction, which differs from the DOCX extraction. *)
Lemma docx_typed_file_gets_pdf_extraction :
  docx_typed ascii_lower docx_named_pdf = true
  ∧ extract_text_from_file sample_PdfReader sample_Document ascii_lower docx_named_pdf
    = extract_text_from_pdf sample_PdfReader (UploadedFile.read docx_named_pdf)
  ∧ extract_text_from_file sample_PdfReader sample_Document ascii_lower docx_named_pdf
    ≠ extract_text_from_docx sample_Document (UploadedFile.read docx_named_pdf).
Proof. split; [reflexivity|]. split; [reflexivity|]. by vm_compute. Qed.

Lemma extract_text_from_file_dispatch_witness :
  extract_text_from_file sample_PdfReader sample_Document ascii_lower plain_text_file
  = ([], Raises (unsupported (lit "text/plain")))
  ∧ extract_text_from_file sample_PdfReader sample_Document ascii_lower docx_named_pdf
    = extract_text_from_pdf sample_PdfReader (UploadedFile.read docx_named_pdf).
Proof.
  split.
  - apply (extract_text_from_file_dispatch
             sample_PdfReader sample_Document ascii_lower plain_text_file).
    split; reflexivity.
  - apply (extract_text_from_file_dispatch
             sample_PdfReader sample_Document ascii_lower docx_named_pdf).
    reflexivity.
Defined.

(** C10. The PDF test comes first: a PDF-typed file goes to the PDF
    extractor and to no other parser, also when it is DOCX-typed; and the
    DOCX parser is only ever called for a file that is not PDF-typed. *)
Theorem pdf_takes_precedence
    (PdfReader : list Byte.byte → outcome (list pystr))
    (Document : list Byte.byte → outcome DocxDocument)
    (lower : pystr → pystr) (uploaded_file : UploadedFile.t) :
  let extracted := extract_text_from_file PdfReader Document lower uploaded_file in
  (pdf_typed lower uploaded_file = true →
   extracted = extract_text_from_pdf PdfReader (UploadedFile.read uploaded_file)
   ∧ extracted.1 = [CallPdfReader (UploadedFile.read uploaded_file)])
  ∧ (∀ file_bytes, CallDocument file_bytes ∈ extracted.1 →
     pdf_typed lower uploaded_file = false ∧ docx_typed lower uploaded_file = true).
Proof.
  intros extracted. subst extracted.
  rewrite extract_text_from_file_cases.
  pose proof (extract_text_from_pdf_calls PdfReader (UploadedFile.read uploaded_file)) as Hpdf.
  pose proof (extract_text_from_docx_calls Document (UploadedFile.read uploaded_file)) as Hdocx.
  destruct (pdf_typed lower uploaded_file), (docx_typed lower uploaded_file);
    (split; [try done|intros file_bytes Hin]); try done.
  - rewrite Hpdf in Hin. by apply list_elem_of_singleton in Hin.
  - rewrite Hpdf in Hin. by apply list_elem_of_singleton in Hin.
  - simpl in Hin. by apply elem_of_nil in Hin.
Qed.

Lemma pdf_takes_precedence_witness :
  pdf_typed ascii_lower docx_named_pdf = true
  ∧ docx_typed ascii_lower docx_named_pdf = true
  ∧ (extract_text_from_file sample_PdfReader sample_Document ascii_lower docx_named_pdf).1
    = [CallPdfReader (UploadedFile.read docx_named_pdf)].
Proof.
  split; [reflexivity|]. split; [reflexivity|].
  apply (pdf_takes_precedence
           sample_PdfReader sample_Document ascii_lower docx_named_pdf).
  reflexivity.
Defined.

(** ** The join of [asyncio.gather] over fail-soft tasks *)

Section GatherFacts.

Context (arun : service).

Lemma finished_Some c r : finished c = Some r ↔ c = Done (Returns r).
Proof.
  destruct c as [[r'|e]|a p k]; simpl; split; intros H; try done.
  - by injection H as ->.
  - by injection H as ->.
Qed.

(** What the loop does from any state of fail-soft tasks and with any
    order of completions: it only records tasks that were still pending
    reaching their result; it never resumes the awaiting code with an
    exception; it resumes it with the results of all tasks, each of
    which has been seen to finish; and it leaves it waiting only when
    the call of some pending task never completes. *)
Lemma gather_loop_fail_soft (order : list nat) (ts : list (coro result)) :
  Forall fail_soft ts →
  ∃ tr r, gather_loop arun order ts = (tr, r)
    ∧ (∀ ev, ev ∈ tr → ∃ i a p k res,
         ev = EvTerminal i (Returns res) ∧ i ∈ order
         ∧ ts !! i = Some (Await a p k) ∧ k (arun a p) = Done (Returns res))
    ∧ match r with
      | Some (Returns rs) =>
          settle arun <$> ts = (λ res, Done (Returns res)) <$> rs
          ∧ ∀ i a p k, ts !! i = Some (Await a p k) →
              ∃ res, EvTerminal i (Returns res) ∈ tr
      | Some (Raises _) => False
      | None => ∃ i a p k, ts !! i = Some (Await a p k) ∧ i ∉ order
      end.
Proof.
  revert ts. induction order as [|i order IH]; intros ts Hts; simpl.
  - destruct (mapM finished ts) as [rs|] eqn:Hm.
    + exists [], (Some (Returns rs)). split; [done|].
      split; [intros ev Hev; by apply elem_of_nil in Hev|].
      apply mapM_Some_1 in Hm. split.
      * induction Hm as [|c res ts' rs' Hc _ IHm]; [done|].
        apply finished_Some in Hc as ->. simpl. f_equal.
        apply IHm. by eapply Forall_inv_tail.
      * intros j a p k Hj.
        destruct (Forall2_lookup_l _ _ _ _ _ Hm Hj) as (res & _ & Hres). done.
    + exists [], None. split; [done|].
      split; [intros ev Hev; by apply elem_of_nil in Hev|].
      apply mapM_None_1, Exists_exists in Hm as (c & Hc & Hnone).
      apply list_elem_of_lookup in Hc as [j Hj].
      rewrite Forall_lookup in Hts. specialize (Hts j c Hj).
      destruct c as [[res|e]|a p k]; [done|done|].
      exists j, a, p, k. split; [done|]. apply not_elem_of_nil.
  - destruct (mapM finished ts) as [rs|] eqn:Hm.
    + exists [], (Some (Returns rs)). split; [done|].
      split; [intros ev Hev; by apply elem_of_nil in Hev|].
      apply mapM_Some_1 in Hm. split.
      * clear IH. induction Hm as [|c res ts' rs' Hc _ IHm]; [done|].
        apply finished_Some in Hc as ->. simpl. f_equal.
        apply IHm. by eapply Forall_inv_tail.
      * intros j a p k Hj.
        destruct (Forall2_lookup_l _ _ _ _ _ Hm Hj) as (res & _ & Hres). done.
    + destruct (ts !! i) as [[o|a p k]|] eqn:Hi.
      * (* the task has ended already *)
        destruct (IH ts Hts) as (tr & r & -> & Htr & Hr).
        exists tr, r. split; [done|]. split.
        { intros ev Hev.
          destruct (Htr ev Hev) as (j & a' & p' & k' & res' & -> & Hin & Hj & Hk').
          exists j, a', p', k', res'. by rewrite elem_of_cons; auto. }
        destruct r as [[rs|e]|]; [done|done|].
        destruct Hr as (j & a & p & k & Hj & Hnot).
        exists j, a, p, k. split; [done|].
        rewrite not_elem_of_cons. split; [|done]. intros ->. congruence.
      * (* its call completes *)
        pose proof Hts as Hts'. rewrite Forall_lookup in Hts'.
        destruct (Hts' i _ Hi (arun a p)) as [res Hk]. rewrite Hk. simpl.
        assert (Hins : Forall fail_soft (<[i:=Done (Returns res)]> ts))
          by (by apply Forall_insert).
        destruct (IH _ Hins) as (tr & r & -> & Htr & Hr).
        exists (EvTerminal i (Returns res) :: tr), r. split; [done|].
        split.
        { intros ev [->|Hev]%elem_of_cons.
          - exists i, a, p, k, res. by rewrite elem_of_cons; auto.
          - destruct (Htr ev Hev) as (j & a' & p' & k' & res' & -> & Hin & Hj & Hk').
            exists j, a', p', k', res'. split; [done|].
            split; [by rewrite elem_of_cons; auto|]. split; [|done].
            destruct (decide (i = j)) as [->|Hne].
            + rewrite list_lookup_insert_eq in Hj; [done|]. by eapply lookup_lt_Some.
            + by rewrite list_lookup_insert_ne in Hj. }
        destruct r as [[rs|e]|]; [|done|].
        { destruct Hr as [Hrs Hall]. split.
          - rewrite <- Hrs, list_fmap_insert. simpl.
            symmetry. apply list_insert_id.
            rewrite list_lookup_fmap, Hi. simpl. by rewrite Hk.
          - intros j a' p' k' Hj. destruct (decide (i = j)) as [->|Hne].
            + exists res. apply elem_of_cons. by left.
            + destruct (Hall j a' p' k') as [res' Hres'].
              { by rewrite list_lookup_insert_ne. }
              exists res'. apply elem_of_cons. by right. }
        { destruct Hr as (j & a' & p' & k' & Hj & Hnot).
          destruct (decide (i = j)) as [->|Hne].
          - rewrite list_lookup_insert_eq in Hj; [done|]. by eapply lookup_lt_Some.
          - rewrite list_lookup_insert_ne in Hj by done.
            exists j, a', p', k'. split; [done|].
            rewrite not_elem_of_cons. split; [congruence|done]. }
      * (* no such task *)
        destruct (IH ts Hts) as (tr & r & -> & Htr & Hr).
        exists tr, r. split; [done|]. split.
        { intros ev Hev.
          destruct (Htr ev Hev) as (j & a' & p' & k' & res' & -> & Hin & Hj & Hk').
          exists j, a', p', k', res'. by rewrite elem_of_cons; auto. }
        destruct r as [[rs|e]|]; [done|done|].
        destruct Hr as (j & a & p & k & Hj & Hnot).
        exists j, a, p, k. split; [done|].
        rewrite not_elem_of_cons. split; [|done]. intros ->. congruence.
Qed.

End GatherFacts.

(** ** Phase 1 and the manager stage *)

Section Orchestration.

Context (environ : gmap string pystr) (arun : service).

Lemma completion_order_covers order (l : lens) :
  completion_order order → lens_index l ∈ order.
Proof.
  unfold completion_order. intros ->. destruct l; simpl; set_solver.
Qed.

(** Phase 1 under any order of completions. *)
Lemma phase1_gather (order : list nat) (contract_text : pystr) :
  ∃ tr r (results : lens → result),
    gather arun order
      [ ContractStructureAgent.analyze (ContractStructureAgent.init environ) contract_text;
        LegalFrameworkAgent.analyze (LegalFrameworkAgent.init environ) contract_text;
        NegotiationAgent.analyze (NegotiationAgent.init environ) contract_text ]
    = (phase1_calls environ contract_text ++ tr, r)
    ∧ (∀ l, (await arun (lens_analyze environ l contract_text)).2 = Returns (results l))
    ∧ (∀ ev, ev ∈ tr →
         ∃ l, ev = EvTerminal (lens_index l) (Returns (results l)) ∧ lens_index l ∈ order)
    ∧ match r with
      | Some (Returns rs) =>
          rs = [results Structure; results Legal; results Negotiation]
          ∧ ∀ l, EvTerminal (lens_index l) (Returns (results l)) ∈ tr
      | Some (Raises _) => False
      | None => ∃ l, lens_index l ∉ order
      end.
Proof.
  destruct (lens_analyze_unfold environ Structure contract_text) as (k0 & E0 & H0).
  destruct (lens_analyze_unfold environ Legal contract_text) as (k1 & E1 & H1).
  destruct (lens_analyze_unfold environ Negotiation contract_text) as (k2 & E2 & H2).
  set (a0 := lens_agent environ Structure) in *.
  set (a1 := lens_agent environ Legal) in *.
  set (a2 := lens_agent environ Negotiation) in *.
  set (p0 := lens_prompt Structure contract_text) in *.
  set (p1 := lens_prompt Legal contract_text) in *.
  set (p2 := lens_prompt Negotiation contract_text) in *.
  change (ContractStructureAgent.analyze (ContractStructureAgent.init environ) contract_text)
    with (lens_analyze environ Structure contract_text).
  change (LegalFrameworkAgent.analyze (LegalFrameworkAgent.init environ) contract_text)
    with (lens_analyze environ Legal contract_text).
  change (NegotiationAgent.analyze (NegotiationAgent.init environ) contract_text)
    with (lens_analyze environ Negotiation contract_text).
  rewrite E0, E1, E2.
  destruct (H0 (arun a0 p0)) as (r0 & Hr0 & _).
  destruct (H1 (arun a1 p1)) as (r1 & Hr1 & _).
  destruct (H2 (arun a2 p2)) as (r2 & Hr2 & _).
  set (ts := [Await a0 p0 k0; Await a1 p1 k1; Await a2 p2 k2]).
  assert (Hts : Forall fail_soft ts).
  { repeat constructor; intros o; [destruct (H0 o) as (r & ? & _)
                                  |destruct (H1 o) as (r & ? & _)
                                  |destruct (H2 o) as (r & ? & _)]; by exists r. }
  destruct (gather_loop_fail_soft arun order ts Hts) as (tr & r & Hloop & Htr & Hr).
  set (results := λ l, match l with Structure => r0 | Legal => r1 | Negotiation => r2 end).
  exists tr, r, results.
  split; [unfold gather; simpl; fold ts; by rewrite Hloop|].
  split.
  { intros []; rewrite ?E0, ?E1, ?E2; simpl; by rewrite ?Hr0, ?Hr1, ?Hr2. }
  assert (Hev : ∀ i res, EvTerminal i (Returns res) ∈ tr →
                ∃ l, i = lens_index l ∧ res = results l).
  { intros i res Hin.
    destruct (Htr _ Hin) as (j & a & p & k & res' & Heq & _ & Hj & Hk).
    injection Heq as -> ->.
    destruct j as [|[|[|j]]]; simpl in Hj; [| | |done];
      injection Hj as <- <- <-;
      [exists Structure|exists Legal|exists Negotiation];
      (split; [done|]); simpl; congruence. }
  split.
  { intros ev Hin. destruct (Htr _ Hin) as (j & a & p & k & res & -> & Hord & _).
    destruct (Hev _ _ Hin) as (l & -> & ->). by exists l. }
  destruct r as [[rs|e]|]; [|done|].
  - destruct Hr as [Hrs Hall]. split.
    + simpl in Hrs. rewrite Hr0, Hr1, Hr2 in Hrs.
      destruct rs as [|x0 [|x1 [|x2 [|]]]]; simpl in Hrs; try done.
      by injection Hrs as <- <- <-.
    + intros l.
      destruct (Hall (lens_index l)
                  (match l with Structure => a0 | Legal => a1 | Negotiation => a2 end)
                  (match l with Structure => p0 | Legal => p1 | Negotiation => p2 end)
                  (match l with Structure => k0 | Legal => k1 | Negotiation => k2 end))
        as [res Hres]; [by destruct l|].
      destruct (Hev _ _ Hres) as (l' & Hl' & ->).
      assert (l' = l) as -> by (by destruct l, l'). done.
  - destruct Hr as (j & a & p & k & Hj & Hnot).
    destruct j as [|[|[|j]]]; simpl in Hj; [| | |done];
      [exists Structure|exists Legal|exists Negotiation]; done.
Qed.

(** The whole of [run_agents] when every phase-1 call completes: the
    three calls go out, the three tasks finish, the results are keyed by
    analysis kind, and only then the manager's call goes out. *)
Lemma run_agents_complete (order : list nat) (contract_text : pystr) :
  (∀ l, lens_index l ∈ order) →
  ∃ (results : lens → result) (tr : list event) (manager_result : result),
    run_agents environ arun order contract_text
    = (phase1_calls environ contract_text ++ tr
       ++ [EvArun (ManagerAgent.agent (ManagerAgent.init environ))
                  (ManagerAgent.prompt (aggregate results))],
       Some (Returns {| agents := aggregate results;
                        consolidated := manager_result |}))
    ∧ (∀ l, (await arun (lens_analyze environ l contract_text)).2 = Returns (results l))
    ∧ (∀ l, EvTerminal (lens_index l) (Returns (results l)) ∈ tr)
    ∧ (∀ ev, ev ∈ tr →
         ∃ l, ev = EvTerminal (lens_index l) (Returns (results l)) ∧ lens_index l ∈ order)
    ∧ (await arun (ManagerAgent.analyze (ManagerAgent.init environ) (aggregate results))).2
      = Returns manager_result.
Proof.
  intros Hcover.
  destruct (phase1_gather order contract_text)
    as (tr & r & results & Hg & Hres & Htr & Hr).
  destruct r as [[rs|e]|]; [|done|].
  - destruct Hr as [-> Hall].
    destruct (await_manager_analyze environ arun (aggregate results))
      as (manager_result & Hm & _).
    exists results, tr, manager_result.
    split; [|by rewrite Hm].
    unfold run_agents. rewrite Hg. fold (aggregate results). rewrite Hm.
    by rewrite <- app_assoc.
  - destruct Hr as [l Hl]. by destruct (Hl (Hcover l)).
Qed.

(** When the call of some phase-1 task never completes, [run_agents] is
    never resumed and the manager's call never goes out. *)
Lemma run_agents_stalled (order : list nat) (contract_text : pystr) (l : lens) :
  lens_index l ∉ order →
  ∃ tr, run_agents environ arun order contract_text
        = (phase1_calls environ contract_text ++ tr, None)
      ∧ ∀ ev, ev ∈ tr → ∃ i o, ev = EvTerminal i o.
Proof.
  intros Hl.
  destruct (phase1_gather order contract_text)
    as (tr & r & results & Hg & Hres & Htr & Hr).
  destruct r as [[rs|e]|]; [|done|].
  - destruct Hr as [_ Hall].
    destruct (Htr _ (Hall l)) as (l' & Heq & Hin).
    injection Heq as Heq _. by rewrite <- Heq in Hin.
  - exists tr. split; [unfold run_agents; by rewrite Hg|].
    intros ev Hev. destruct (Htr ev Hev) as (l' & -> & _). eauto.
Qed.

(** [main] of app.py runs the same two stages as [run_agents]. *)
Lemma main_analysis_run_agents (order : list nat) (contract_text : pystr) :
  main_analysis environ arun order contract_text
  = run_agents environ arun order contract_text.
Proof.
  unfold main_analysis, run_parallel_analysis, run_manager_analysis, run_agents.
  destruct (gather _ _ _) as [tr [[rs|e]|]]; [|done|done].
  destruct rs as [|x0 [|x1 [|x2 [|]]]]; done.
Qed.

End Orchestration.



Lemma lens_agent_not_manager environ (l : lens) :
  lens_agent environ l ≠ ManagerAgent.agent (ManagerAgent.init environ).
Proof. destruct l; intros H; apply (f_equal name) in H; by vm_compute in H. Qed.

Lemma aggregate_lookup (results : lens → result) (l : lens) :
  aggregate results !! lens_key l = Some (results l).
Proof. by destruct l. Qed.

Lemma aggregate_dom (results : lens → result) :
  dom (aggregate results) = ({[ "structure"; "legal"; "negotiation" ]} : gset string).
Proof.
  unfold aggregate. rewrite !dom_insert_L, dom_singleton_L. set_solver.
Qed.

(** C3. Whatever the order in which the three phase-1 tasks complete,
    the run opens with the three phase-1 calls, then sees each of the
    three tasks reach its terminal state, and only then makes the
    manager's call, which is the last event and occurs nowhere earlier.
    The manager is given the mapping whose keys are exactly [structure],
    [legal] and [negotiation], each holding the result of its worker. *)
Theorem manager_after_fan_in (environ : gmap string pystr) (arun : service)
    (order : list nat) (contract_text : pystr) :
  completion_order order →
  ∃ (results : lens → result) (tr : list event) (manager_result : result),
    (run_agents environ arun order contract_text).1
    = phase1_calls environ contract_text ++ tr
      ++ [EvArun (ManagerAgent.agent (ManagerAgent.init environ))
                 (ManagerAgent.prompt (aggregate results))]
    ∧ (∀ l, EvTerminal (lens_index l) (Returns (results l)) ∈ tr)
    ∧ (∀ p, EvArun (ManagerAgent.agent (ManagerAgent.init environ)) p
            ∉ phase1_calls environ contract_text ++ tr)
    ∧ dom (aggregate results) = ({[ "structure"; "legal"; "negotiation" ]} : gset string)
    ∧ (∀ l, aggregate results !! lens_key l = Some (results l)
            ∧ (await arun (lens_analyze environ l contract_text)).2 = Returns (results l))
    ∧ (run_agents environ arun order contract_text).2
      = Some (Returns {| agents := aggregate results; consolidated := manager_result |})
    ∧ main_analysis environ arun order contract_text
      = run_agents environ arun order contract_text.
Proof.
  intros Horder.
  destruct (run_agents_complete environ arun order contract_text)
    as (results & tr & manager_result & Hrun & Hres & Hall & Htr & Hm).
  { intros l. by apply completion_order_covers. }
  exists results, tr, manager_result. rewrite Hrun. cbn [fst snd].
  split; [done|]. split; [done|]. split.
  { intros p [Hin|Hin]%elem_of_app.
    - unfold phase1_calls in Hin.
      rewrite !elem_of_cons, elem_of_nil in Hin.
      destruct Hin as [[= Hin _]|[[= Hin _]|[[= Hin _]|[]]]];
        symmetry in Hin; by apply lens_agent_not_manager in Hin.
    - by destruct (Htr _ Hin) as (l & ? & _). }
  split; [apply aggregate_dom|].
  split; [intros l; split; [apply aggregate_lookup|apply Hres]|].
  split; [done|]. by rewrite main_analysis_run_agents.
Qed.

Lemma manager_after_fan_in_witness :
  ∃ (results : lens → result) (tr : list event),
    (run_agents ∅ stub_service [2; 0; 1] []).1
    = phase1_calls ∅ [] ++ tr
      ++ [EvArun (ManagerAgent.agent (ManagerAgent.init ∅))
                 (ManagerAgent.prompt (aggregate results))]
    ∧ ∀ l, EvTerminal (lens_index l) (Returns (results l)) ∈ tr.
Proof.
  destruct (manager_after_fan_in ∅ stub_service [2; 0; 1] [])
    as (results & tr & manager_result & Htrace & Hall & _).
  - unfold completion_order.
    etrans; [apply perm_swap | apply perm_skip, perm_swap].
  - by exists results, tr.
Defined.



(** C8. Two runs on the same document against the same deterministic
    service return the same report, whatever the order in which the
    phase-1 calls complete in each of them. *)
Theorem run_agents_repeatable (environ : gmap string pystr) (arun : service)
    (order1 order2 : list nat) (contract_text : pystr) :
  completion_order order1 →
  completion_order order2 →
  ∃ report : Results,
    (run_agents environ arun order1 contract_text).2 = Some (Returns report)
    ∧ (run_agents environ arun order2 contract_text).2 = Some (Returns report)
    ∧ (main_analysis environ arun order1 contract_text).2 = Some (Returns report)
    ∧ (main_analysis environ arun order2 contract_text).2 = Some (Returns report).
Proof.
  intros Horder1 Horder2.
  destruct (run_agents_complete environ arun order1 contract_text)
    as (results1 & tr1 & manager1 & Hrun1 & Hres1 & _ & _ & Hm1).
  { intros l. by apply completion_order_covers. }
  destruct (run_agents_complete environ arun order2 contract_text)
    as (results2 & tr2 & manager2 & Hrun2 & Hres2 & _ & _ & Hm2).
  { intros l. by apply completion_order_covers. }
  assert (Hsame : ∀ l, results2 l = results1 l).
  { intros l. specialize (Hres1 l). specialize (Hres2 l). congruence. }
  assert (Hagg : aggregate results2 = aggregate results1).
  { unfold aggregate. by rewrite !Hsame. }
  rewrite Hagg in Hrun2, Hm2.
  assert (manager2 = manager1) as -> by congruence.
  exists {| agents := aggregate results1; consolidated := manager1 |}.
  rewrite !main_analysis_run_agents, Hrun1, Hrun2. done.
Qed.

Lemma run_agents_repeatable_witness :
  ∃ report : Results,
    (run_agents ∅ stub_service [0; 1; 2] (lit "Lease agreement")).2
    = Some (Returns report)
    ∧ (run_agents ∅ stub_service [2; 1; 0] (lit "Lease agreement")).2
      = Some (Returns report).
Proof.
  destruct (run_agents_repeatable ∅ stub_service [0; 1; 2] [2; 1; 0]
              (lit "Lease agreement"))
    as (report & H1 & H2 & _).
  - unfold completion_order. reflexivity.
  - unfold completion_order.
    etrans; [apply perm_swap|]. etrans; [apply perm_skip, perm_swap|]. apply perm_swap.
  - by exists report.
Defined.

(** ** The two scenarios of the specification, run on the model *)

(** An empty document against a service that always answers [stub-ok]:
    each of the three entries has that content, and the manager's call,
    the last event of the run, embeds it three times. *)
Example scenario_empty_document :
  match run_agents ∅ stub_service [0; 1; 2] [] with
  | (tr, Some (Returns report)) =>
      last tr
      = Some (EvArun (ManagerAgent.agent (ManagerAgent.init ∅))
                (ManagerAgent.prompt_head ++ lit "stub-ok"
                 ++ ManagerAgent.prompt_legal ++ lit "stub-ok"
                 ++ ManagerAgent.prompt_negotiation ++ lit "stub-ok"
                 ++ ManagerAgent.prompt_tail))
      ∧ agents report !! "structure" ≫= (.!! "content") = Some (PStr (lit "stub-ok"))
      ∧ agents report !! "legal" ≫= (.!! "content") = Some (PStr (lit "stub-ok"))
      ∧ agents report !! "negotiation" ≫= (.!! "content") = Some (PStr (lit "stub-ok"))
  | _ => False
  end.
Proof. vm_compute. by repeat split. Qed.

(** The legal worker's call times out: its entry carries the text of the
    exception, the other two entries have the service's answer and no
    [error], and the consolidated report is still produced. *)
Example scenario_legal_timeout :
  match run_agents ∅ legal_timeout_service [2; 1; 0] (lit "Lease agreement") with
  | (_, Some (Returns report)) =>
      agents report !! "legal" ≫= (.!! "error") = Some (PStr (lit "request timed out"))
      ∧ agents report !! "legal" ≫= (.!! "content")
        = Some (PStr (warning_sign ++ lit " Analysis failed: request timed out"))
      ∧ agents report !! "structure" ≫= (.!! "content") = Some (PStr (lit "stub-ok"))
      ∧ agents report !! "structure" ≫= (.!! "error") = None
      ∧ agents report !! "negotiation" ≫= (.!! "content") = Some (PStr (lit "stub-ok"))
      ∧ agents report !! "negotiation" ≫= (.!! "error") = None
      ∧ consolidated report !! "content" = Some (PStr (lit "stub-ok"))
  | _ => False
  end.
Proof. vm_compute. by repeat split. Qed.

(** * Further properties of the code *)

(** ** Strings *)

Lemma length_lstrip (s : pystr) : length (lstrip s) ≤ length s.
Proof. induction s as [|c s IH]; simpl; [done|]. destruct (isspace c); simpl; lia. Qed.

Lemma length_strip (s : pystr) : length (strip s) ≤ length s.
Proof.
  unfold strip. rewrite length_reverse.
  etrans; [apply length_lstrip|]. rewrite length_reverse. apply length_lstrip.
Qed.

Lemma lstrip_visible (s : pystr) : filter visible (lstrip s) = filter visible s.
Proof.
  induction s as [|c s IH]; simpl; [done|].
  destruct (isspace c) eqn:Hc; [|done].
  rewrite filter_cons_False; [done|]. unfold visible. by rewrite Hc.
Qed.

Lemma strip_visible (s : pystr) : filter visible (strip s) = filter visible s.
Proof.
  unfold strip.
  by rewrite filter_reverse, lstrip_visible, filter_reverse, reverse_involutive,
    lstrip_visible.
Qed.

Lemma lstrip_visible_head (c : N) (s : pystr) :
  visible c → lstrip (c :: s) = c :: s.
Proof. unfold visible. simpl. by intros ->. Qed.

Lemma split_on_lines (sep : N) (s : pystr) :
  concat ((λ line, line ++ [sep]) <$> split_on sep s) = s ++ [sep].
Proof.
  induction s as [|c s IH]; simpl; [done|].
  destruct (N.eqb_spec c sep) as [->|Hne]; simpl.
  - f_equal. exact IH.
  - destruct (split_on sep s) as [|line lines]; simpl in *.
    + by destruct s.
    + f_equal. exact IH.
Qed.

Lemma split_on_no_sep (sep : N) (s : pystr) : sep ∉ s → split_on sep s = [s].
Proof.
  induction s as [|c s IH]; simpl; [done|].
  intros Hnot. apply not_elem_of_cons in Hnot as [Hne Hnot].
  destruct (N.eqb_spec c sep) as [->|_]; [done|]. by rewrite IH.
Qed.

(** ** Formatting a result for Telegram *)

Lemma format_agent_result_length (title icon : pystr) (result : result) :
  length (format_agent_result title icon result) ≤ length icon + length title + 3032.
Proof.
  unfold format_agent_result.
  set (content := py_str _).
  assert (Hnote : length truncation_note = 27) by reflexivity.
  assert (Hstar : length (lit " *") = 2) by reflexivity.
  assert (Hhead : length (lit "*

") = 3) by reflexivity.
  rewrite !length_app, Hstar, Hhead.
  destruct (Nat.ltb_spec 3000 (length content)) as [Hlong|Hshort]; [|lia].
  rewrite length_app, Hnote. unfold slice_to. rewrite length_take. lia.
Qed.

(** X1. A formatted result is the icon, the title between asterisks, a
    blank line and the content; the content is shown whole when it has at
    most 3000 characters, and is otherwise cut to its first 3000
    characters followed by the truncation note. In every case the
    message has at most 3032 characters more than icon and title. *)
Theorem format_agent_result_bounded (title icon : pystr) (result : result) :
  let content := py_str (dict_get result "content" (PStr (lit "No analysis available"))) in
  length (format_agent_result title icon result) ≤ length icon + length title + 3032
  ∧ (length content ≤ 3000 →
     format_agent_result title icon result
     = icon ++ lit " *" ++ title ++ lit "*

" ++ content)
  ∧ (3000 < length content →
     format_agent_result title icon result
     = icon ++ lit " *" ++ title ++ lit "*

" ++ take 3000 content ++ truncation_note
     ∧ length (format_agent_result title icon result)
       = length icon + length title + 3032).
Proof.
  intros content. unfold format_agent_result. fold content.
  assert (Hnote : length truncation_note = 27) by reflexivity.
  assert (Hstar : length (lit " *") = 2) by reflexivity.
  assert (Hhead : length (lit "*

") = 3) by reflexivity.
  destruct (Nat.ltb_spec 3000 (length content)) as [Hlong|Hshort].
  - assert (Hcut : length (slice_to 3000 content) = 3000).
    { unfold slice_to. rewrite length_take. lia. }
    split; [rewrite !length_app, Hcut, Hnote, Hstar, Hhead; lia|].
    split; [lia|]. intros _.
    split; [done|]. rewrite !length_app, Hcut, Hnote, Hstar, Hhead. lia.
  - split; [rewrite !length_app, Hstar, Hhead; lia|].
    split; [done|lia].
Qed.

Lemma format_agent_result_bounded_witness :
  format_agent_result (lit "Legal Analysis") legal_icon
    {[ "content" := PStr (lit "stub-ok") ]}
  = legal_icon ++ lit " *Legal Analysis*

stub-ok".
Proof.
  destruct (format_agent_result_bounded (lit "Legal Analysis") legal_icon
              {[ "content" := PStr (lit "stub-ok") ]}) as (_ & Hwhole & _).
  apply Hwhole. vm_compute. lia.
Defined.

(** ** Splitting a long message *)

Lemma fill_chunks_bounded (lines chunks : list pystr) (current_chunk : pystr) :
  Forall (λ line, length line < MAX_MESSAGE_LENGTH) lines →
  Forall (λ chunk, length chunk ≤ MAX_MESSAGE_LENGTH) chunks →
  length current_chunk ≤ MAX_MESSAGE_LENGTH →
  Forall (λ chunk, length chunk ≤ MAX_MESSAGE_LENGTH) (fill_chunks lines chunks current_chunk).1
  ∧ length (fill_chunks lines chunks current_chunk).2 ≤ MAX_MESSAGE_LENGTH.
Proof.
  revert chunks current_chunk.
  induction lines as [|line lines IH]; intros chunks current_chunk Hlines Hchunks Hcur;
    simpl; [done|].
  apply Forall_cons in Hlines as [Hline Hlines].
  destruct (Nat.leb_spec (length current_chunk + length line + 1) MAX_MESSAGE_LENGTH)
    as [Hfits|Hover].
  - apply IH; [done|done|]. rewrite !length_app. simpl. lia.
  - apply IH; [done| |rewrite length_app; simpl; lia].
    destruct (nonempty current_chunk); [|done].
    apply Forall_app. split; [done|]. apply Forall_singleton.
    etrans; [apply length_strip|done].
Qed.

Lemma message_chunks_bounded (text : pystr) :
  Forall (λ line, length line < MAX_MESSAGE_LENGTH) (split_on newline text) →
  Forall (λ chunk, length chunk ≤ MAX_MESSAGE_LENGTH) (message_chunks text).
Proof.
  intros Hlines. unfold message_chunks.
  destruct (fill_chunks_bounded (split_on newline text) [] [] Hlines)
    as [Hchunks Hcur]; [done|simpl; lia|].
  destruct (fill_chunks (split_on newline text) [] []) as [chunks current_chunk].
  simpl in *. destruct (nonempty current_chunk); [|done].
  apply Forall_app. split; [done|]. apply Forall_singleton.
  etrans; [apply length_strip|done].
Qed.

Lemma fill_chunks_visible (lines chunks : list pystr) (current_chunk : pystr) :
  filter visible (concat (fill_chunks lines chunks current_chunk).1
                  ++ (fill_chunks lines chunks current_chunk).2)
  = filter visible (concat chunks ++ current_chunk
                    ++ concat ((λ line, line ++ [newline]) <$> lines)).
Proof.
  revert chunks current_chunk.
  induction lines as [|line lines IH]; intros chunks current_chunk; simpl.
  { by rewrite app_nil_r. }
  destruct (length current_chunk + length line + 1 <=? MAX_MESSAGE_LENGTH).
  - rewrite IH. by rewrite <- !app_assoc.
  - rewrite IH. rewrite filter_app. symmetry.
    rewrite (app_assoc (concat chunks) current_chunk), filter_app. symmetry.
    f_equal.
    destruct current_chunk as [|c current_chunk]; simpl; [by rewrite app_nil_r|].
    rewrite concat_app, !filter_app. simpl. rewrite app_nil_r.
    by rewrite strip_visible.
Qed.

(** X3. Splitting loses nothing but white space: the characters of the
    chunks that are not white space are those of the text, in the same
    order. *)
Theorem message_chunks_visible (text : pystr) :
  filter visible (concat (message_chunks text)) = filter visible text.
Proof.
  unfold message_chunks.
  pose proof (fill_chunks_visible (split_on newline text) [] []) as H.
  rewrite split_on_lines in H.
  destruct (fill_chunks (split_on newline text) [] []) as [chunks current_chunk].
  change (concat [] ++ [] ++ text ++ [newline]) with (text ++ [newline]) in H.
  assert (Hnl : filter visible [newline] = []) by reflexivity.
  rewrite (filter_app _ text), Hnl, app_nil_r in H.
  cbn [fst snd] in H. rewrite <- H. rewrite filter_app.
  destruct current_chunk as [|c current_chunk]; simpl.
  - by rewrite filter_nil, app_nil_r.
  - rewrite concat_app, filter_app. simpl. rewrite app_nil_r.
    by rewrite strip_visible.
Qed.

(** ** Sending a long message *)

Lemma send_long_message_short (tg : telegram) (text : pystr) :
  length text ≤ MAX_MESSAGE_LENGTH →
  send_long_message tg text = perform tg (ReplyText text (Some "Markdown")).
Proof.
  intros Hshort. unfold send_long_message.
  by destruct (Nat.leb_spec (length text) MAX_MESSAGE_LENGTH); [|lia].
Qed.

Lemma send_long_message_long (tg : telegram) (text : pystr) :
  MAX_MESSAGE_LENGTH < length text →
  send_long_message tg text = send_chunks tg (message_chunks text).
Proof.
  intros Hlong. unfold send_long_message.
  by destruct (Nat.leb_spec (length text) MAX_MESSAGE_LENGTH); [lia|].
Qed.

(** One round of the loop over the chunks. *)
Lemma send_chunks_cons (tg : telegram) (chunk : pystr) (chunks : list pystr)
    (log : list bot_action) :
  send_chunks tg (chunk :: chunks) log
  = match tg log (ReplyText chunk (Some "Markdown")) with
    | Returns _ =>
        send_chunks tg chunks (log ++ [ReplyText chunk (Some "Markdown"); Sleep 300])
    | Raises _ =>
        match tg (log ++ [ReplyText chunk (Some "Markdown")]) (ReplyText chunk None) with
        | Returns _ =>
            send_chunks tg chunks
              (log ++ [ReplyText chunk (Some "Markdown"); ReplyText chunk None; Sleep 300])
        | Raises e =>
            (log ++ [ReplyText chunk (Some "Markdown"); ReplyText chunk None], Raises e)
        end
    end.
Proof.
  simpl. unfold mbind, bot_bind, try_except, perform, sleep.
  destruct (tg log (ReplyText chunk (Some "Markdown"))) as [[]|e].
  - by rewrite <- app_assoc.
  - destruct (tg (log ++ [ReplyText chunk (Some "Markdown")]) (ReplyText chunk None))
      as [[]|e'].
    + by rewrite <- !app_assoc.
    + by rewrite <- app_assoc.
Qed.

Lemma send_chunks_log (tg : telegram) (chunks : list pystr) (log : list bot_action) :
  ∃ new, (send_chunks tg chunks log).1 = log ++ new
       ∧ ∀ text, text ∈ replied_texts new → text ∈ chunks.
Proof.
  revert log. induction chunks as [|chunk chunks IH]; intros log.
  - exists []. split; [by rewrite app_nil_r|]. intros text Hin. by apply elem_of_nil in Hin.
  - rewrite send_chunks_cons.
    destruct (tg log (ReplyText chunk (Some "Markdown"))) as [[]|e].
    + destruct (IH (log ++ [ReplyText chunk (Some "Markdown"); Sleep 300]))
        as (new & -> & Hnew).
      exists ([ReplyText chunk (Some "Markdown"); Sleep 300] ++ new).
      split; [by rewrite app_assoc|].
      unfold replied_texts. rewrite omap_app. simpl. fold (replied_texts new).
      intros text [->|Hin]%elem_of_cons; [left|right; by apply Hnew].
    + destruct (tg (log ++ [ReplyText chunk (Some "Markdown")]) (ReplyText chunk None))
        as [[]|e'].
      * destruct (IH (log ++ [ReplyText chunk (Some "Markdown");
                              ReplyText chunk None; Sleep 300]))
          as (new & -> & Hnew).
        exists ([ReplyText chunk (Some "Markdown"); ReplyText chunk None; Sleep 300] ++ new).
        split; [by rewrite app_assoc|].
        unfold replied_texts. rewrite omap_app. simpl. fold (replied_texts new).
        intros text [->|[->|Hin]%elem_of_cons]%elem_of_cons;
          [left|left|right; by apply Hnew].
      * exists [ReplyText chunk (Some "Markdown"); ReplyText chunk None].
        split; [done|]. simpl.
        intros text [->|[->|Hin]%elem_of_cons]%elem_of_cons; [left|left|].
        by apply elem_of_nil in Hin.
Qed.

(** X2. When every line of the text is shorter than the Telegram limit,
    no reply that [send_long_message] sends has more than 4096
    characters, however the API answers. *)
Theorem send_long_message_within_limit (tg : telegram) (text : pystr)
    (log : list bot_action) :
  Forall (λ line, length line < MAX_MESSAGE_LENGTH) (split_on newline text) →
  ∃ new, (send_long_message tg text log).1 = log ++ new
       ∧ ∀ sent, sent ∈ replied_texts new → length sent ≤ MAX_MESSAGE_LENGTH.
Proof.
  intros Hlines.
  destruct (Nat.le_gt_cases (length text) MAX_MESSAGE_LENGTH) as [Hshort|Hlong].
  - rewrite send_long_message_short by done.
    exists [ReplyText text (Some "Markdown")]. split; [done|].
    simpl. intros sent [->|Hin]%elem_of_cons; [done|]. by apply elem_of_nil in Hin.
  - rewrite send_long_message_long by done.
    destruct (send_chunks_log tg (message_chunks text) log) as (new & -> & Hnew).
    exists new. split; [done|]. intros sent Hin.
    pose proof (message_chunks_bounded text Hlines) as Hbound.
    rewrite Forall_forall in Hbound. by apply Hbound, Hnew.
Qed.

Lemma send_long_message_within_limit_witness :
  ∃ new, (send_long_message plain_only_telegram two_long_lines []).1 = [] ++ new
       ∧ ∀ sent, sent ∈ replied_texts new → length sent ≤ MAX_MESSAGE_LENGTH.
Proof.
  apply (send_long_message_within_limit plain_only_telegram two_long_lines []).
  apply (bool_decide_unpack _). by vm_compute.
Defined.

Lemma send_chunks_falls_back (tg : telegram) (chunks : list pystr) (log : list bot_action) :
  (∀ log' chunk, tg log' (ReplyText chunk None) = Returns ()) →
  ∃ new, send_chunks tg chunks log = (log ++ new, Returns ())
       ∧ markdown_texts new = chunks
       ∧ ∀ text, text ∈ plain_texts new → text ∈ chunks.
Proof.
  intros Hplain. revert log.
  induction chunks as [|chunk chunks IH]; intros log.
  - exists []. split; [by rewrite app_nil_r|]. split; [done|].
    intros text Hin. by apply elem_of_nil in Hin.
  - rewrite send_chunks_cons.
    destruct (tg log (ReplyText chunk (Some "Markdown"))) as [[]|e].
    + destruct (IH (log ++ [ReplyText chunk (Some "Markdown"); Sleep 300]))
        as (new & -> & Hmd & Hpl).
      exists ([ReplyText chunk (Some "Markdown"); Sleep 300] ++ new).
      split; [by rewrite app_assoc|]. split.
      * unfold markdown_texts. rewrite omap_app. simpl.
        fold (markdown_texts new). by rewrite Hmd.
      * unfold plain_texts. rewrite omap_app. simpl. fold (plain_texts new).
        intros text Hin. right. by apply Hpl.
    + rewrite Hplain.
      destruct (IH (log ++ [ReplyText chunk (Some "Markdown");
                            ReplyText chunk None; Sleep 300]))
        as (new & -> & Hmd & Hpl).
      exists ([ReplyText chunk (Some "Markdown"); ReplyText chunk None; Sleep 300] ++ new).
      split; [by rewrite app_assoc|]. split.
      * unfold markdown_texts. rewrite omap_app. simpl.
        fold (markdown_texts new). by rewrite Hmd.
      * unfold plain_texts. rewrite omap_app. simpl. fold (plain_texts new).
        intros text [->|Hin]%elem_of_cons; [left|right; by apply Hpl].
Qed.

(** X4. A text over the limit survives a refusal of
    its Markdown: as long as the API accepts replies without a parse
    mode, [send_long_message] returns normally, having tried every chunk
    once with Markdown, in order, and having sent without parse mode
    only chunks of the text. A text within the limit is sent once, and a
    refusal of that reply is passed on without a second try. *)
Theorem send_long_message_falls_back (tg : telegram) (text : pystr)
    (log : list bot_action) :
  (∀ log' chunk, tg log' (ReplyText chunk None) = Returns ()) →
  (MAX_MESSAGE_LENGTH < length text →
   ∃ new, send_long_message tg text log = (log ++ new, Returns ())
        ∧ markdown_texts new = message_chunks text
        ∧ ∀ sent, sent ∈ plain_texts new → sent ∈ message_chunks text)
  ∧ (length text ≤ MAX_MESSAGE_LENGTH →
     send_long_message tg text log
     = (log ++ [ReplyText text (Some "Markdown")],
        tg log (ReplyText text (Some "Markdown")))).
Proof.
  intros Hplain. split.
  - intros Hlong. rewrite send_long_message_long by done.
    by apply send_chunks_falls_back.
  - intros Hshort. by rewrite send_long_message_short.
Qed.

Lemma send_long_message_falls_back_witness :
  send_long_message plain_only_telegram two_long_lines []
  = ([ ReplyText (replicate 3000 97%N) (Some "Markdown");
       ReplyText (replicate 3000 97%N) None; Sleep 300;
       ReplyText (replicate 3000 98%N) (Some "Markdown");
       ReplyText (replicate 3000 98%N) None; Sleep 300 ], Returns ())
  ∧ send_long_message plain_only_telegram (lit "stub-ok") []
    = ([ReplyText (lit "stub-ok") (Some "Markdown")],
       Raises {| exc_class := "BadRequest"; exc_str := lit "Can't parse entities" |}).
Proof.
  assert (Hplain : ∀ (log' : list bot_action) (chunk : pystr),
             plain_only_telegram log' (ReplyText chunk None) = Returns ())
    by reflexivity.
  split.
  - by vm_compute.
  - apply (send_long_message_falls_back plain_only_telegram (lit "stub-ok") [] Hplain).
    vm_compute. lia.
Defined.

Lemma lstrip_app (s t : pystr) :
  lstrip (s ++ t) = match lstrip s with [] => lstrip t | _ => lstrip s ++ t end.
Proof.
  induction s as [|c s IH]; simpl; [by destruct (lstrip t)|].
  by destruct (isspace c).
Qed.

Lemma strip_snoc_space (s : pystr) (c : N) :
  isspace c = true → strip (s ++ [c]) = strip s.
Proof.
  intros Hc. unfold strip. rewrite lstrip_app.
  destruct (lstrip s) as [|d s'] eqn:Hs.
  - simpl. by rewrite Hc.
  - rewrite reverse_snoc. simpl. by rewrite Hc.
Qed.

(** X5. The splitting is by lines only: a text over the limit that has no
    line break goes out as one chunk, the text without its surrounding
    white space, so a reply longer than the limit is attempted unless
    stripping brings it under. *)
Theorem message_chunks_single_line (text : pystr) :
  newline ∉ text →
  MAX_MESSAGE_LENGTH < length text →
  message_chunks text = [strip text]
  ∧ (strip text = text →
     ∀ tg log, ∃ rest,
       (send_long_message tg text log).1
       = log ++ ReplyText text (Some "Markdown") :: rest).
Proof.
  intros Hline Hlong.
  assert (Hchunks : message_chunks text = [strip text]).
  { unfold message_chunks. rewrite split_on_no_sep by done. simpl.
    destruct (Nat.leb_spec (length text + 1) MAX_MESSAGE_LENGTH); [lia|].
    simpl. destruct text as [|c text]; [simpl in Hlong; lia|]. simpl.
    change (c :: text ++ [newline]) with ((c :: text) ++ [newline]).
    by rewrite (strip_snoc_space (c :: text) newline). }
  split; [done|]. intros Hstrip tg log.
  rewrite send_long_message_long, Hchunks, Hstrip, send_chunks_cons by done.
  destruct (tg log (ReplyText text (Some "Markdown"))) as [[]|e].
  - by eexists.
  - destruct (tg (log ++ [ReplyText text (Some "Markdown")]) (ReplyText text None))
      as [[]|e']; by eexists.
Qed.

Lemma message_chunks_single_line_witness :
  message_chunks one_long_line = [one_long_line]
  ∧ length one_long_line = 4097.
Proof.
  split; [|by vm_compute].
  destruct (message_chunks_single_line one_long_line) as [Hchunks _].
  - unfold one_long_line. intros Hin. apply elem_of_replicate in Hin as [Heq _].
    by vm_compute in Heq.
  - unfold one_long_line, MAX_MESSAGE_LENGTH. rewrite length_replicate. lia.
  - rewrite Hchunks. by vm_compute.
Defined.

(** ** Sending the results *)

Lemma perform_bind {A : Type} (tg : telegram) (a : bot_action) (f : unit → bot A)
    (log : list bot_action) :
  (perform tg a ≫= f) log
  = match tg log a with
    | Returns u => f u (log ++ [a])
    | Raises e => (log ++ [a], Raises e)
    end.
Proof. unfold mbind, bot_bind, perform. by destruct (tg log a). Qed.

Lemma sleep_bind {A : Type} (milliseconds : N) (f : unit → bot A) (log : list bot_action) :
  (sleep milliseconds ≫= f) log = f () (log ++ [Sleep milliseconds]).
Proof. done. Qed.

Lemma bot_bind_assoc {A B C : Type} (m : bot A) (g : A → bot B) (f : B → bot C)
    (log : list bot_action) :
  ((m ≫= g) ≫= f) log = (m ≫= λ x, g x ≫= f) log.
Proof. unfold mbind, bot_bind. by destruct (m log) as [log' [x|e]]. Qed.

Lemma bot_bind_ext {A B : Type} (m : bot A) (f g : A → bot B) (log : list bot_action) :
  (∀ x log', f x log' = g x log') → (m ≫= f) log = (m ≫= g) log.
Proof. intros Hfg. unfold mbind, bot_bind. destruct (m log) as [log' [x|e]]; auto. Qed.

Lemma bot_bind_ret (m : bot unit) (log : list bot_action) :
  (m ≫= λ _, mret ()) log = m log.
Proof. unfold mbind, bot_bind, mret, bot_ret. by destruct (m log) as [log' [[]|e]]. Qed.

Lemma do_all_log (tg : telegram) (actions : list bot_action) (log : list bot_action) :
  ∃ new ending,
    do_all tg actions log = (log ++ new, ending)
    ∧ new `prefix_of` actions
    ∧ (ending = Returns () → new = actions)
    ∧ (∀ e, ending = Raises e →
         ∃ a, last new = Some a ∧ tg (log ++ removelast new) a = Raises e).
Proof.
  revert log. induction actions as [|a actions IH]; intros log.
  { exists [], (Returns ()). rewrite app_nil_r. by repeat split. }
  assert (Hnext : ∀ log', log' = log ++ [a] →
            ∃ new ending, do_all tg actions log' = (log ++ new, ending)
              ∧ new `prefix_of` a :: actions
              ∧ (ending = Returns () → new = a :: actions)
              ∧ (∀ e, ending = Raises e →
                   ∃ a', last new = Some a' ∧ tg (log ++ removelast new) a' = Raises e)).
  { intros log' ->. destruct (IH (log ++ [a])) as (new & ending & Hrun & Hpre & Hok & Hraise).
    exists (a :: new), ending. rewrite Hrun, <- app_assoc.
    split; [done|]. split; [by apply prefix_cons|].
    split; [intros He; by rewrite (Hok He)|].
    intros e He. destruct (Hraise e He) as (a' & Hlast & Htg).
    exists a'. destruct new as [|b new]; [done|]. split; [done|].
    rewrite <- app_assoc in Htg. exact Htg. }
  assert (Hstop : ∀ e, tg log a = Raises e →
            ∃ new ending, (log ++ [a], Raises e : outcome unit) = (log ++ new, ending)
              ∧ new `prefix_of` a :: actions
              ∧ (ending = Returns () → new = a :: actions)
              ∧ (∀ e', ending = Raises e' →
                   ∃ a', last new = Some a' ∧ tg (log ++ removelast new) a' = Raises e')).
  { intros e He. exists [a], (Raises e). split; [done|].
    split; [by apply prefix_cons, prefix_nil|]. split; [done|].
    intros e' [= <-]. exists a. simpl. by rewrite app_nil_r. }
  simpl. destruct a; try (rewrite perform_bind;
    match goal with |- context [tg log ?a] => destruct (tg log a) as [[]|e] eqn:E end;
    [by apply Hnext|by apply Hstop]).
  rewrite sleep_bind. by apply Hnext.
Qed.

Lemma results_actions_within_limit (results : Results) :
  ∀ sent, sent ∈ replied_texts (results_actions results) →
    length sent ≤ MAX_MESSAGE_LENGTH.
Proof.
  intros sent Hin. unfold results_actions in Hin. simpl in Hin.
  repeat (apply elem_of_cons in Hin as [->|Hin]);
    try (etrans; [apply format_agent_result_length|]; apply Nat.leb_le; reflexivity).
  - apply Nat.leb_le. reflexivity.
  - by apply elem_of_nil in Hin.
Qed.

Lemma send_results_do_all (tg : telegram) (results : Results) (log : list bot_action) :
  send_results tg results log = do_all tg (results_actions results) log.
Proof.
  unfold send_results, send_agent_messages, results_actions in *.
  set (m1 := format_agent_result (lit "Structure Analysis") _ _) in *.
  set (m2 := format_agent_result (lit "Legal Analysis") _ _) in *.
  set (m3 := format_agent_result (lit "Negotiation Analysis") _ _) in *.
  set (m4 := format_agent_result (lit "Executive Report") _ _) in *.
  assert (H1 : length m1 ≤ MAX_MESSAGE_LENGTH)
    by (etrans; [apply format_agent_result_length|]; apply Nat.leb_le; reflexivity).
  assert (H2 : length m2 ≤ MAX_MESSAGE_LENGTH)
    by (etrans; [apply format_agent_result_length|]; apply Nat.leb_le; reflexivity).
  assert (H3 : length m3 ≤ MAX_MESSAGE_LENGTH)
    by (etrans; [apply format_agent_result_length|]; apply Nat.leb_le; reflexivity).
  assert (H4 : length m4 ≤ MAX_MESSAGE_LENGTH)
    by (etrans; [apply format_agent_result_length|]; apply Nat.leb_le; reflexivity).
  rewrite !send_long_message_short by done. simpl do_all.
  rewrite bot_bind_assoc. apply bot_bind_ext. intros _ log1.
  rewrite bot_bind_assoc. apply bot_bind_ext. intros _ log2.
  rewrite bot_bind_assoc. apply bot_bind_ext. intros _ log3.
  rewrite bot_bind_assoc. apply bot_bind_ext. intros _ log4.
  rewrite bot_bind_assoc. apply bot_bind_ext. intros _ log5.
  rewrite bot_bind_assoc. apply bot_bind_ext. intros _ log6.
  change ((perform tg (ReplyText separator None)
           ≫= λ _, perform tg (ReplyText m4 (Some "Markdown"))) log6
          = (perform tg (ReplyText separator None)
             ≫= λ _, perform tg (ReplyText m4 (Some "Markdown")) ≫= λ _, mret ()) log6).
  apply bot_bind_ext. intros _ log7. by rewrite bot_bind_ret.
Qed.

(** X6. [send_results] never splits a message: each of the four reports
    fits in one Telegram message, so what it does is a beginning of the
    same eight actions (three agent reports each followed by a pause,
    the separator, the executive report), the whole of them when it
    returns normally; it stops at the first reply that the API refuses. *)
Theorem send_results_never_splits (tg : telegram) (results : Results)
    (log : list bot_action) :
  ∃ new ending,
    send_results tg results log = (log ++ new, ending)
    ∧ new `prefix_of` results_actions results
    ∧ (ending = Returns () → new = results_actions results)
    ∧ (∀ e, ending = Raises e →
         ∃ a, last new = Some a ∧ tg (log ++ removelast new) a = Raises e)
    ∧ (∀ sent, sent ∈ replied_texts (results_actions results) →
         length sent ≤ MAX_MESSAGE_LENGTH).
Proof.
  rewrite send_results_do_all.
  destruct (do_all_log tg (results_actions results) log)
    as (new & ending & Hrun & Hpre & Hok & Hraise).
  exists new, ending. repeat split; try done.
  apply results_actions_within_limit.
Qed.

(** ** Showing and exporting the results in the web front end *)

Lemma reports_content (notice : pystr) (o : outcome RunResponse) (r : result) :
  reports notice o r → ∃ shown, r !! "content" = Some shown.
Proof. destruct o; intros [Hc _]; eauto. Qed.

Lemma display_content (title card_class icon : pystr) (r : result) (shown : pyval) :
  r !! "content" = Some shown →
  display_agent_result title (Some r) card_class icon
  = [StExpander (icon ++ lit " " ++ title) true; StMarkdown (py_str shown)].
Proof.
  intros Hc. unfold display_agent_result, truthy_result, has_key, subscript.
  rewrite Hc.
  rewrite (bool_decide_eq_true_2 (r ≠ ∅)) by (intros ->; by rewrite lookup_empty in Hc).
  by rewrite (bool_decide_eq_true_2 (is_Some (Some shown))) by done.
Qed.

(** X7. What a worker returns is always shown with [st.markdown], never
    with [st.error]: the generated text when the external call
    returned, the failure notice when it raised. This holds for the
    three phase-1 workers and for the manager. *)
Theorem display_worker_result (environ : gmap string pystr) (arun : service)
    (title card_class icon : pystr) :
  (∀ (l : lens) (contract_text : pystr),
     ∃ r, (await arun (lens_analyze environ l contract_text)).2 = Returns r
        ∧ display_agent_result title (Some r) card_class icon
          = [ StExpander (icon ++ lit " " ++ title) true;
              StMarkdown
                match arun (lens_agent environ l) (lens_prompt l contract_text) with
                | Returns response => py_str (content response)
                | Raises e => warning_sign ++ lit " Analysis failed: " ++ exc_str e
                end ])
  ∧ (∀ agent_results : gmap string result,
       ∃ r, (await arun (ManagerAgent.analyze (ManagerAgent.init environ) agent_results)).2
            = Returns r
          ∧ display_agent_result title (Some r) card_class icon
            = [ StExpander (icon ++ lit " " ++ title) true;
                StMarkdown
                  match arun (ManagerAgent.agent (ManagerAgent.init environ))
                             (ManagerAgent.prompt agent_results) with
                  | Returns response => py_str (content response)
                  | Raises e => warning_sign ++ lit " Consolidation failed: " ++ exc_str e
                  end ]).
Proof.
  split.
  - intros l contract_text.
    destruct (await_lens_analyze environ arun l contract_text) as (r & Hr & Hrep).
    exists r. rewrite Hr. split; [done|].
    destruct (arun (lens_agent environ l) (lens_prompt l contract_text));
      destruct Hrep as [Hc _]; by rewrite (display_content _ _ _ _ _ Hc).
  - intros agent_results.
    destruct (await_manager_analyze environ arun agent_results) as (r & Hr & Hrep).
    exists r. rewrite Hr. split; [done|].
    destruct (arun (ManagerAgent.agent (ManagerAgent.init environ))
                   (ManagerAgent.prompt agent_results));
      destruct Hrep as [Hc _]; by rewrite (display_content _ _ _ _ _ Hc).
Qed.

(** X8. A missing result ([None], as [agent_results.get] gives for an
    absent key) and an empty dictionary are shown as the warning
    [No analysis available]; the error branch is taken only by a
    non-empty dictionary that has an [error] key and no [content] key. *)
Theorem display_without_content (title card_class icon : pystr) :
  display_agent_result title None card_class icon
  = [StExpander (icon ++ lit " " ++ title) true; StWarning (lit "No analysis available")]
  ∧ display_agent_result title (Some ∅) card_class icon
    = [StExpander (icon ++ lit " " ++ title) true; StWarning (lit "No analysis available")]
  ∧ (∀ (r : result) (body : pystr),
       StError body ∈ display_agent_result title (Some r) card_class icon →
       r !! "content" = None
       ∧ ∃ error, r !! "error" = Some error ∧ body = lit "Error: " ++ py_str error).
Proof.
  split; [done|]. split; [done|].
  intros r body Hin.
  destruct (r !! "content") as [shown|] eqn:Hc.
  { rewrite (display_content _ _ _ _ _ Hc) in Hin.
    rewrite !elem_of_cons, elem_of_nil in Hin. by destruct Hin as [|[|]]. }
  split; [done|].
  unfold display_agent_result, truthy_result, has_key, subscript in Hin.
  rewrite Hc in Hin.
  rewrite (bool_decide_eq_false_2 (is_Some None)) in Hin by (by intros [? ?]).
  rewrite andb_false_r in Hin.
  destruct (r !! "error") as [error|] eqn:He.
  - rewrite (bool_decide_eq_true_2 (r ≠ ∅)) in Hin
      by (intros ->; by rewrite lookup_empty in He).
    rewrite (bool_decide_eq_true_2 (is_Some (Some error))) in Hin by done.
    change (true && true) with true in Hin. cbv iota in Hin.
    rewrite !elem_of_cons, elem_of_nil in Hin.
    destruct Hin as [Hin|[Hin|[]]]; [discriminate Hin|].
    exists error. split; [done|]. by injection Hin.
  - rewrite (bool_decide_eq_false_2 (is_Some None)) in Hin by (by intros [? ?]).
    rewrite andb_false_r in Hin.
    rewrite !elem_of_cons, elem_of_nil in Hin.
    by destruct Hin as [|[|]].
Qed.

(** ** What the extractors return *)

Lemma nonempty_true (s : pystr) : nonempty s = true ↔ s ≠ [].
Proof. by destruct s. Qed.

Lemma join_nil (sep : pystr) (parts : list pystr) :
  Forall (λ part, part ≠ []) parts → join sep parts = [] → parts = [].
Proof.
  destruct parts as [|p [|q parts]]; [done| |]; intros [Hp _]%Forall_cons; simpl.
  - done.
  - intros [? _]%app_eq_nil. done.
Qed.

(** X9. The PDF extraction calls the parser once and passes its failure
    on unchanged. When the parser returns, the text is the pages that
    have text joined by blank lines: pages without text change nothing,
    and the text is empty exactly when no page has text. *)
Theorem extract_text_from_pdf_pages
    (PdfReader : list Byte.byte → outcome (list pystr)) (file_bytes : list Byte.byte) :
  match PdfReader file_bytes with
  | Raises e =>
      extract_text_from_pdf PdfReader file_bytes = ([CallPdfReader file_bytes], Raises e)
  | Returns pages =>
      ∃ text,
        extract_text_from_pdf PdfReader file_bytes
        = ([CallPdfReader file_bytes], Returns text)
        ∧ text = join [newline; newline] (filter (λ page, page ≠ []) pages)
        ∧ (text = [] ↔ Forall (λ page, page = []) pages)
  end.
Proof.
  unfold extract_text_from_pdf, mbind, parsing_bind.
  destruct (PdfReader file_bytes) as [pages|e]; [|done].
  assert (Hfilter : filter (λ page_text, nonempty page_text = true) pages
                    = filter (λ page, page ≠ []) pages).
  { apply list_filter_iff. intros page. apply nonempty_true. }
  eexists. split; [done|]. rewrite Hfilter. split; [done|].
  split.
  - intros Hnil. apply join_nil in Hnil.
    + apply Forall_forall. intros page Hin.
      destruct (decide (page = [])) as [|Hne]; [done|].
      assert (page ∈ filter (λ page, page ≠ []) pages) as Hin'
        by (by apply list_elem_of_filter).
      rewrite Hnil in Hin'. by apply elem_of_nil in Hin'.
    + apply Forall_forall. intros page Hin. by apply list_elem_of_filter in Hin as [? _].
  - intros Hall. replace (filter (λ page, page ≠ []) pages) with (@nil pystr); [done|].
    symmetry. clear Hfilter. induction Hall as [|page pages Hpage _ IH]; [done|].
    rewrite filter_cons_False by (by intros ?). exact IH.
Qed.
